(** * Presence, routing and notification policy of the Socket.IO chat server

    A shallow embedding of the two near-duplicate server files (called
    [Older] and [Newer] below), of [lib/notificationService.js] and of
    [lib/fcmServer.js], with the properties of the written specification
    stated against it.

    Conventions of the embedding:
    - a JavaScript value that reaches the server from a client or from the
      record store is a [value]; objects are opaque references;
    - a JS [Map] is a [gmap] (the code never depends on the iteration order
      of a map), a JS [Set] of socket ids is a list in insertion order
      without repetition, iterated by [for ... of] in that order;
    - [new Date()] is an integer number of milliseconds supplied by the
      environment;
    - an asynchronous handler is modelled from the point where its awaited
      store results are available; what the store answered is an argument
      or is computed from an explicit store state and fault oracle.

    The two server files differ, for what is modelled here, in
    [markUserOnline] only (the newer one validates the user id); their
    [disconnect], [user:page], [user:conversation], [join_conversation],
    [sendMessage] and [markAsRead] handlers are the same code (the newer
    [disconnect] adds a [try]/[catch] around a body that does not throw).
    Logging is left out, and so is the text of the push notification that
    [sendMessage] composes once it has decided to send one. *)

From Stdlib Require Import Ascii String ZArith Lia.
From stdpp Require Import gmap strings list pretty.

Open Scope string_scope.
Open Scope list_scope.
Open Scope nat_scope.

(** ** JavaScript values *)

Inductive value :=
  | VUndefined
  | VNull
  | VBool (b : bool)
  | VNum (n : Z)
  | VStr (s : string)
  | VRef (r : positive).

#[global] Instance value_eq_dec : EqDecision value.
Proof. solve_decision. Defined.

#[global] Instance value_countable : Countable value.
Proof.
  refine (inj_countable'
    (fun v => match v with
              | VUndefined => inl (inl ())
              | VNull => inl (inr ())
              | VBool b => inr (inl b)
              | VNum n => inr (inr (inl n))
              | VStr s => inr (inr (inr (inl s)))
              | VRef r => inr (inr (inr (inr r)))
              end)
    (fun x => match x with
              | inl (inl _) => VUndefined
              | inl (inr _) => VNull
              | inr (inl b) => VBool b
              | inr (inr (inl n)) => VNum n
              | inr (inr (inr (inl s))) => VStr s
              | inr (inr (inr (inr r))) => VRef r
              end) _).
  by intros [].
Defined.

(** [!v] is [negb (truthy v)]. *)
Definition truthy (v : value) : bool :=
  match v with
  | VUndefined | VNull => false
  | VBool b => b
  | VNum n => negb (n =? 0)%Z
  | VStr s => negb (String.eqb s "")
  | VRef _ => true
  end.

(** [typeof v === "string"]. *)
Definition is_string (v : value) : bool :=
  match v with VStr _ => true | _ => false end.

(** [a === b] on the values of the model (no NaN among them). *)
Definition strict_eq (a b : value) : bool := bool_decide (a = b).

(** [String(v)] *)
Definition js_String (v : value) : string :=
  match v with
  | VUndefined => "undefined"
  | VNull => "null"
  | VBool b => if b then "true" else "false"
  | VNum n => pretty n
  | VStr s => s
  | VRef _ => "[object Object]"
  end.

(** White space removed by [String.prototype.trim], for the one-byte
    characters of the model: TAB, LF, VT, FF, CR and SPACE. *)
Definition is_js_space (c : ascii) : bool :=
  let n := nat_of_ascii c in
  (((9 <=? n) && (n <=? 13)) || (n =? 32))%nat.

Fixpoint all_space (s : string) : bool :=
  match s with
  | EmptyString => true
  | String c r => is_js_space c && all_space r
  end.

(** [v.trim() === ""] for a string [v]. *)
Definition trims_to_empty (v : value) : bool :=
  match v with VStr s => all_space s | _ => false end.

(** ** JS [Set] *)

Definition set_add {A} `{EqDecision A} (x : A) (s : list A) : list A :=
  if bool_decide (x ∈ s) then s else s ++ [x].

Definition set_delete {A} `{EqDecision A} (x : A) (s : list A) : list A :=
  filter (fun y => y ≠ x) s.

(** [[...new Set(l)]]: the distinct elements of [l], by first occurrence. *)
Definition unique {A} `{EqDecision A} (l : list A) : list A :=
  foldl (fun acc x => set_add x acc) [] l.

(** ** Server state *)

(** The object kept per user in a [userActivity] map; an absent property
    reads as [undefined]. *)
Record Activity := mkActivity {
  page : value;
  activeConversation : value;
}.

Definition empty_activity : Activity := mkActivity VUndefined VUndefined.

#[global] Instance activity_eq_dec : EqDecision Activity.
Proof. solve_decision. Defined.

(** One connection: the closure created by [io.on("connection")] holds
    [socket.userId], the rooms joined with [socket.join] and its own
    [userActivity] map (the [const userActivity = new Map()] inside the
    connection callback).  The closure outlives the connection, so a
    disconnected socket is kept with [sock_connected = false]. *)
Record Socket := mkSocket {
  sock_userId : value;
  sock_connected : bool;
  sock_rooms : list value;
  userActivity : gmap value Activity;
}.

Definition new_socket : Socket := mkSocket VUndefined true [] ∅.

(** The process: the module-level [userSocketMap] and the sockets the
    process has seen, by socket id. *)
Record Server := mkServer {
  userSocketMap : gmap value (list string);
  sockets : gmap string Socket;
}.

Definition initial : Server := mkServer ∅ ∅.

Definition with_map (m : gmap value (list string)) (st : Server) : Server :=
  mkServer m (sockets st).

Definition with_sockets (ss : gmap string Socket) (st : Server) : Server :=
  mkServer (userSocketMap st) ss.

(** ** Emitted events *)

Record Message := mkMessage {
  msg_id : value;
  msg_conversation_id : value;
  msg_sender_id : value;
  msg_content : value;
  msg_read_at : option Z;
  msg_deleted_at : option Z;
}.

#[global] Instance message_eq_dec : EqDecision Message.
Proof. solve_decision. Defined.

Inductive event :=
  | OnlineStatus (userId : value) (online : bool) (last_seen : option Z)
  | ReceiveMessage (m : Message)
  | MessagesSeen (conversation_id reader_id : value)
                 (seen_message_ids : list value) (unread_count : nat).

#[global] Instance event_eq_dec : EqDecision event.
Proof. solve_decision. Defined.

(** [io.emit] reaches every connected socket, [io.to(r).emit] every
    socket in room [r]. *)
Inductive target := ToAll | ToRoom (r : value).

Record emit := Emit { emit_to : target; emit_ev : event }.


Definition connected (st : Server) (sid : string) : bool :=
  match sockets st !! sid with
  | Some s => sock_connected s
  | None => false
  end.



(** ** Presence registry *)

Inductive version := Older | Newer.

(** The argument of a [registerUser] / [user-online] event: the value
    itself and, when it is an object, the value of its [userId] property. *)
Record Payload := mkPayload {
  arg : value;
  arg_userId : value;
}.

(** [payload?.userId] *)
Definition prop_userId (p : Payload) : value :=
  match arg p with
  | VRef _ => arg_userId p
  | _ => VUndefined
  end.

(** [typeof payload === "string" ? payload : payload?.userId] *)
Definition carried_userId (p : Payload) : value :=
  if is_string (arg p) then arg p else prop_userId p.

(** The user id [markUserOnline] goes on with, or [None] when it returns
    early.  The older server takes its argument as it comes; the newer one
    accepts a string or an object with a [userId] and validates it. *)
Definition resolve_userId (ver : version) (p : Payload) : option value :=
  match ver with
  | Older => Some (arg p)
  | Newer =>
      let userId := carried_userId p in
      if negb (truthy userId) || negb (is_string userId) || trims_to_empty userId
      then None
      else Some userId
  end.

Definition set_socket_userId (sid : string) (u : value) (st : Server) : Server :=
  with_sockets
    (alter (fun s => mkSocket u (sock_connected s) (sock_rooms s) (userActivity s))
       sid (sockets st))
    st.

Definition markUserOnline (ver : version) (sid : string) (p : Payload)
    (st : Server) : Server * list emit :=
  match resolve_userId ver p with
  | None => (st, [])
  | Some userId =>
      let st1 := set_socket_userId sid userId st in
      let existing := default [] (userSocketMap st1 !! userId) in
      let existing := set_add sid existing in
      let st2 := with_map (<[userId := existing]> (userSocketMap st1)) st1 in
      (st2, if (length existing =? 1)%nat
            then [Emit ToAll (OnlineStatus userId true None)]
            else [])
  end.

(** The [disconnect] handler; the socket has left its rooms and is no
    longer connected when it runs.  [now] is [new Date()]. *)
Definition disconnect (sid : string) (now : Z) (st : Server)
    : Server * list emit :=
  match sockets st !! sid with
  | None => (st, [])
  | Some sock =>
      let st :=
        with_sockets
          (<[sid := mkSocket (sock_userId sock) false [] (userActivity sock)]>
             (sockets st)) st in
      let userId := sock_userId sock in
      if negb (truthy userId) then (st, []) else
      match userSocketMap st !! userId with
      | None => (st, [])
      | Some set =>
          let set := set_delete sid set in
          if (length set =? 0)%nat
          then (with_map (delete userId (userSocketMap st)) st,
                [Emit ToAll (OnlineStatus userId false (Some now))])
          else (with_map (<[userId := set]> (userSocketMap st)) st, [])
      end
  end.

(** ** Activity tracker and rooms *)

Definition update_socket (f : Socket -> Socket) (sid : string) (st : Server)
    : Server :=
  with_sockets (alter f sid (sockets st)) st.

(** [if (!userActivity.has(userId)) userActivity.set(userId, {});] followed
    by an assignment to one property of [userActivity.get(userId)]. *)
Definition upsert_activity (f : Activity -> Activity) (userId : value)
    (m : gmap value Activity) : gmap value Activity :=
  <[userId := f (default empty_activity (m !! userId))]> m.

Definition with_activity (m : gmap value Activity) (s : Socket) : Socket :=
  mkSocket (sock_userId s) (sock_connected s) (sock_rooms s) m.

(** [socket.on("user:page", ({ userId, page }) => ...)] of connection [sid]. *)
Definition on_user_page (sid : string) (userId pg : value) (st : Server)
    : Server :=
  update_socket
    (fun s => with_activity
       (upsert_activity (fun a => mkActivity pg (activeConversation a))
          userId (userActivity s)) s)
    sid st.

(** [socket.on("user:conversation", ({ userId, conversationId, active }) => ...)]. *)
Definition on_user_conversation (sid : string)
    (userId conversationId active : value) (st : Server) : Server :=
  update_socket
    (fun s => with_activity
       (upsert_activity
          (fun a => mkActivity (page a)
                      (if truthy active then conversationId else VNull))
          userId (userActivity s)) s)
    sid st.

(** [socket.join(conversation_id)]. *)
Definition join_conversation (sid : string) (conversation_id : value)
    (st : Server) : Server :=
  update_socket
    (fun s => mkSocket (sock_userId s) (sock_connected s)
                (if bool_decide (conversation_id ∈ sock_rooms s)
                 then sock_rooms s
                 else sock_rooms s ++ [conversation_id])
                (userActivity s))
    sid st.

(** ** The synchronous events of a connection *)

Inductive input :=
  | Connect (sid : string)
  | RegisterUser (sid : string) (p : Payload)
  | JoinConversation (sid : string) (conversation_id : value)
  | UserPage (sid : string) (userId pg : value)
  | UserConversation (sid : string) (userId conversationId active : value)
  | Disconnect (sid : string) (now : Z).

(** [RegisterUser] stands for both [registerUser] and [user-online], which
    are bound to the same function.  A socket id is given to one
    connection only, and only a connected socket delivers events. *)
Definition input_sid (i : input) : string :=
  match i with
  | Connect sid | RegisterUser sid _ | JoinConversation sid _
  | UserPage sid _ _ | UserConversation sid _ _ _ | Disconnect sid _ => sid
  end.

Definition handle (ver : version) (st : Server) (i : input)
    : Server * list emit :=
  match i with
  | Connect sid => (st, [])
  | RegisterUser sid p => markUserOnline ver sid p st
  | JoinConversation sid c => (join_conversation sid c st, [])
  | UserPage sid u pg => (on_user_page sid u pg st, [])
  | UserConversation sid u c a => (on_user_conversation sid u c a st, [])
  | Disconnect sid now => disconnect sid now st
  end.

Definition step (ver : version) (st : Server) (i : input)
    : Server * list emit :=
  match i with
  | Connect sid =>
      match sockets st !! sid with
      | None => (with_sockets (<[sid := new_socket]> (sockets st)) st, [])
      | Some _ => (st, [])
      end
  | _ => if connected st (input_sid i) then handle ver st i else (st, [])
  end.

Fixpoint run (ver : version) (st : Server) (ins : list input)
    : Server * list emit :=
  match ins with
  | [] => (st, [])
  | i :: ins =>
      let '(st1, es1) := step ver st i in
      let '(st2, es2) := run ver st1 ins in
      (st2, es1 ++ es2)
  end.

(** Number of live connections the registry holds for a user. *)
Definition live_count (st : Server) (u : value) : nat :=
  length (default [] (userSocketMap st !! u)).

(** [isOnline]: [userSocketMap.has(userId)]. *)
Definition is_online (st : Server) (u : value) : bool :=
  bool_decide (is_Some (userSocketMap st !! u)).

Definition is_online_event (u : value) (b : bool) (e : emit) : bool :=
  match emit_ev e with
  | OnlineStatus u' b' _ => bool_decide (u' = u) && Bool.eqb b b'
  | _ => false
  end.

(** Per step of a run: the user's live-connection count before and after
    the step, and the number of online-status events with [online = b]
    the step emitted for the user. *)
Fixpoint presence_trace (ver : version) (u : value) (b : bool) (st : Server)
    (ins : list input) : list (nat * nat * nat) :=
  match ins with
  | [] => []
  | i :: ins =>
      let '(st1, es) := step ver st i in
      (live_count st u, live_count st1 u,
       length (filter (fun e => is_online_event u b e = true) es))
      :: presence_trace ver u b st1 ins
  end.

(** A step crosses 0→1 (for [b = true]) or 1→0 (for [b = false]). *)
Definition crossing (b : bool) (before after : nat) : bool :=
  if b then (before =? 0)%nat && (after =? 1)%nat
  else (before =? 1)%nat && (after =? 0)%nat.

Definition plain (s : string) : Payload := mkPayload (VStr s) VUndefined.

(** ** Conversation router: [sendMessage] *)

(** The answer of a store query that ends in [.single()]: the row, or an
    error. *)
Inductive single (A : Type) :=
  | Row (a : A)
  | Failed (err : string).
Arguments Row {A} a.
Arguments Failed {A} err.

Record SendData := mkSendData {
  sender_id : value;
  conversation_id : value;
  content : value;
}.

Record Convo := mkConvo {
  user1_id : value;
  user2_id : value;
}.

(** What the handler decides about the push notification:
    [NotConsidered] when it does not reach the decision or the guard
    [recipientId && recipientId !== sender_id] fails, [Suppressed] when
    [shouldSendNotification] is false, [Warranted r] when the branch that
    composes the notification and calls [sendNotificationToUser(r, ...)]
    is entered. *)
Inductive push_decision :=
  | NotConsidered
  | Suppressed
  | Warranted (recipientId : value).

Record SendResult := mkSendResult {
  sr_emits : list emit;
  sr_push : push_decision;
}.

(** [userActivity.get(recipientId) || {}] in a handler of connection
    [sid]: the map is that of the handler's own connection. *)
Definition observed_activity (st : Server) (sid : string) (u : value)
    : Activity :=
  match sockets st !! sid with
  | Some s => default empty_activity (userActivity s !! u)
  | None => empty_activity
  end.

Definition shouldSendNotification (st : Server) (sid : string)
    (recipientId conversation_id : value) : bool :=
  let recipientOnline := is_online st recipientId in
  let activity := observed_activity st sid recipientId in
  let isInChatsPage := strict_eq (page activity) (VStr "chats") in
  let isReadingConversation :=
    strict_eq (activeConversation activity) conversation_id in
  negb recipientOnline || negb isInChatsPage || negb isReadingConversation.

Definition recipient_of (d : SendData) (c : Convo) : value :=
  if strict_eq (sender_id d) (user1_id c) then user2_id c else user1_id c.

(** Step 4 of the handler: one emit per socket id of the recipient. *)
Definition direct_emits (st : Server) (recipientId sender : value)
    (ev : event) : list emit :=
  match userSocketMap st !! recipientId with
  | Some recipientSockets =>
      if negb (strict_eq recipientId sender)
      then map (fun sId => Emit (ToRoom (VStr sId)) ev) recipientSockets
      else []
  | None => []
  end.

(** The handler of connection [sid], given what the store answers to the
    insert of the message and to the fetch of the conversation, on the
    server state in which it resumes after these two awaits. *)
Definition sendMessage (st : Server) (sid : string) (d : SendData)
    (inserted : single Message) (convo : single Convo) : SendResult :=
  if negb (truthy (sender_id d)) || negb (truthy (conversation_id d))
     || negb (truthy (content d))
  then mkSendResult [] NotConsidered
  else
    match inserted with
    | Failed _ => mkSendResult [] NotConsidered
    | Row message =>
        match convo with
        | Failed _ => mkSendResult [] NotConsidered
        | Row c =>
            let room :=
              Emit (ToRoom (conversation_id d)) (ReceiveMessage message) in
            let recipientId := recipient_of d c in
            let direct :=
              direct_emits st recipientId (sender_id d)
                (ReceiveMessage message) in
            let push :=
              if truthy recipientId
                 && negb (strict_eq recipientId (sender_id d))
              then
                if shouldSendNotification st sid recipientId
                     (conversation_id d)
                then Warranted recipientId
                else Suppressed
              else NotConsidered in
            mkSendResult (room :: direct) push
        end
    end.

(** ** Read-receipt reconciler: [markAsRead] *)

(** Row filters of the store.  A comparison with a NULL column selects
    nothing. *)
Definition sql_eq (col x : value) : bool :=
  negb (bool_decide (col = VNull)) && bool_decide (col = x).

Definition sql_neq (col x : value) : bool :=
  negb (bool_decide (col = VNull)) && negb (bool_decide (col = x)).

(** [.eq("conversation_id", c).neq("sender_id", reader).is("read_at", null)] *)
Definition unread_from_others (c reader : value) (m : Message) : bool :=
  sql_eq (msg_conversation_id m) c && sql_neq (msg_sender_id m) reader
  && bool_decide (msg_read_at m = None).

Definition set_read_at (now : Z) (m : Message) : Message :=
  mkMessage (msg_id m) (msg_conversation_id m) (msg_sender_id m)
    (msg_content m) (Some now) (msg_deleted_at m).

(** The [update({ read_at }) ... .select("id, sender_id")] statement: the
    table after it, and the rows it updated. *)
Definition update_read_at (now : Z) (c reader : value) (ms : list Message)
    : list Message * list Message :=
  (map (fun m => if unread_from_others c reader m then set_read_at now m else m)
     ms,
   map (set_read_at now) (filter (fun m => unread_from_others c reader m = true) ms)).

(** The [select("*", { count: "exact", head: true })] statement. *)
Definition count_unread (c reader : value) (ms : list Message) : nat :=
  length (filter (fun m => unread_from_others c reader m = true) ms).

(** Which of the two store calls of one [markAsRead] fail. *)
Record ReadFaults := mkReadFaults {
  update_fails : bool;
  count_fails : bool;
}.

Definition no_read_faults : ReadFaults := mkReadFaults false false.

(** [senderIds.forEach(...)]: to every socket of every distinct sender. *)
Definition seen_direct_emits (st : Server) (senderIds : list value)
    (ev : event) : list emit :=
  flat_map
    (fun sid =>
       match userSocketMap st !! sid with
       | Some sSockets => map (fun sId => Emit (ToRoom (VStr sId)) ev) sSockets
       | None => []
       end)
    senderIds.

(** The handler on the [messages] table [ms], with no other handler
    running between its store calls: the table after it and its emits. *)
Definition markAsRead (st : Server) (f : ReadFaults) (now : Z)
    (c reader : value) (ms : list Message) : list Message * list emit :=
  if update_fails f then (ms, []) else
  let '(ms', updated) := update_read_at now c reader ms in
  if (length updated =? 0)%nat then
    let unreadCount :=
      if count_fails f then None else Some (count_unread c reader ms') in
    (ms', [Emit (ToRoom c) (MessagesSeen c reader [] (default 0 unreadCount))])
  else
    let seen_message_ids := map msg_id updated in
    let senderIds := unique (map msg_sender_id updated) in
    if count_fails f then (ms', []) else
    let unreadCount := count_unread c reader ms' in
    let ev := MessagesSeen c reader seen_message_ids unreadCount in
    (ms', Emit (ToRoom c) ev :: seen_direct_emits st senderIds ev).

(** The ids a call reports as newly read. *)
Definition newly_updated (now : Z) (c reader : value) (ms : list Message)
    : list value :=
  map msg_id (update_read_at now c reader ms).2.

(** ** Record store and push gateway of the notification service *)

Record TokenRow := mkTokenRow {
  tok_user_id : value;
  token : value;
  device_type : value;
}.

Record NotificationRow := mkNotificationRow {
  n_user_id : value;
  n_title : value;
  n_body : value;
  n_link : value;
  n_seen : bool;
}.

Record AlertRow := mkAlertRow {
  alert_user_id : value;
  alert_type : value;
  weather_data : gmap string value;
  sent_at : Z;
}.

(** [auth_users] gives, for an account, the value of
    [user_metadata?.notifications_enabled] ([undefined] when unset). *)
Record Store := mkStore {
  auth_users : gmap value value;
  notifications : list NotificationRow;
  fcm_tokens : list TokenRow;
  weather_alerts_sent : list AlertRow;
}.

(** A push the gateway accepted. *)
Record Push := mkPush {
  push_token : value;
  push_title : value;
  push_body : value;
  push_link : value;
}.

Record World := mkWorld {
  store : Store;
  pushes : list Push;
}.

(** A failing call either answers with its [error] field set or rejects
    (the awaiting code sees an exception). *)
Inductive fault :=
  | ReturnsError (msg : string)
  | Rejects (msg : string).

(** What the code cannot control: the process environment, the clock, the
    failures of the store per kind of call, and the verdict of the push
    gateway (credentials and HTTP status together) per device token. *)
Record Env := mkEnv {
  NEXT_PUBLIC_FIREBASE_PROJECT_ID : value;
  FIREBASE_PROJECT_ID : value;
  clock : Z;
  tz_offset : Z;
  auth_fault : option fault;
  notifications_fault : option fault;
  tokens_fault : option fault;
  alerts_read_fault : option fault;
  alerts_write_fault : option fault;
  fcm_accepts : value -> bool;
}.

(** ** Asynchronous code as a state-and-exception monad *)

Inductive outcome (A : Type) :=
  | Returned (a : A)
  | Thrown (msg : string).
Arguments Returned {A} a.
Arguments Thrown {A} msg.

Definition Async (A : Type) : Type := World -> outcome A * World.

#[global] Instance async_ret : MRet Async :=
  fun A a w => (Returned a, w).

#[global] Instance async_bind : MBind Async :=
  fun A B k m w =>
    match m w with
    | (Returned a, w1) => k a w1
    | (Thrown msg, w1) => (Thrown msg, w1)
    end.

Definition throw {A} (msg : string) : Async A := fun w => (Thrown msg, w).

(** [try { m } catch (e) { h e.message }] *)
Definition try_catch {A} (m : Async A) (h : string -> Async A) : Async A :=
  fun w =>
    match m w with
    | (Returned a, w1) => (Returned a, w1)
    | (Thrown msg, w1) => h msg w1
    end.

Definition get_store : Async Store := fun w => (Returned (store w), w).

Definition put_store (s : Store) : Async unit :=
  fun w => (Returned tt, mkWorld s (pushes w)).

Definition log_push (p : Push) : Async unit :=
  fun w => (Returned tt, mkWorld (store w) (pushes w ++ [p])).

(** The [{ data, error }] object a store call resolves to. *)
Record Response (A : Type) := mkResponse {
  data : option A;
  error : option string;
}.
Arguments mkResponse {A} data error.
Arguments data {A} r.
Arguments error {A} r.

(** A store call under a fault: it answers with the error, or rejects;
    with no fault it runs. *)
Definition store_call {A} (f : option fault) (run : Async A)
    : Async (Response A) :=
  match f with
  | Some (ReturnsError msg) => mret (mkResponse None (Some msg))
  | Some (Rejects msg) => throw msg
  | None => a ← run; mret (mkResponse (Some a) None)
  end.

(** [Promise.allSettled]: every task runs, none aborts its siblings. *)
Fixpoint settle_all {A} (ms : list (Async A)) (w : World)
    : list (outcome A) * World :=
  match ms with
  | [] => ([], w)
  | m :: ms =>
      let '(r, w1) := m w in
      let '(rs, w2) := settle_all ms w1 in
      (r :: rs, w2)
  end.

Definition allSettled {A} (ms : list (Async A)) : Async (list (outcome A)) :=
  fun w => let '(rs, w1) := settle_all ms w in (Returned rs, w1).

Definition fulfilled {A} (r : outcome A) : bool :=
  match r with Returned _ => true | Thrown _ => false end.

(** [a || b] *)
Definition js_or (a b : value) : value := if truthy a then a else b.

Section NotificationService.

Variable env : Env.

(** *** lib/fcmServer.js *)

(** [sendFcmMessage]: credentials, the HTTP call and the status check; it
    resolves when the gateway accepts the message for the token. *)
Definition sendFcmMessage (projectId : value) (p : Push) : Async unit :=
  if fcm_accepts env (push_token p)
  then log_push p
  else throw "FCM API error".

Definition sendPushNotification (projectId tok title body : value)
    (data : gmap string value) : Async unit :=
  let projectId := js_or projectId (NEXT_PUBLIC_FIREBASE_PROJECT_ID env) in
  if negb (truthy projectId) then throw "Missing Firebase Project ID"
  else if negb (truthy tok) then throw "Missing FCM token"
  else
    sendFcmMessage projectId
      (mkPush tok title body
         (js_or (default VUndefined (data !! "url")) (VStr "/"))).

(** The [{ success, failed }] counts of a fan-out. *)
Record FanOut := mkFanOut {
  fan_success : nat;
  fan_failed : nat;
}.

Definition sendPushNotificationToMultiple (projectId : value)
    (tokens : list value) (title body : value) (data : gmap string value)
    : Async FanOut :=
  if (length tokens =? 0)%nat then throw "No tokens provided"
  else
    results ← allSettled
      (map (fun t => sendPushNotification projectId t title body data) tokens);
    mret (mkFanOut
            (length (filter (fun r => fulfilled r = true) results))
            (length (filter (fun r => fulfilled r = false) results))).

(** *** lib/notificationService.js *)

Record Notification := mkNotification {
  title : value;
  body : value;
  ndata : gmap string value;
}.

(** The object the service functions return; a property that is not set
    is [None] (or [false] for the two flags). *)
Record NotifyResult := mkNotifyResult {
  success : bool;
  res_error : option string;
  skipped : bool;
  limitReached : bool;
  sent : option nat;
  failed : option nat;
  total : option nat;
}.

Definition failure (msg : string) : NotifyResult :=
  mkNotifyResult false (Some msg) false false None None None.

Definition skipped_result : NotifyResult :=
  mkNotifyResult false (Some "Notifications disabled by user") true false
    None None None.

Definition no_tokens_result : NotifyResult :=
  mkNotifyResult false (Some "No tokens found") false false (Some 0) None None.

Definition limit_result : NotifyResult :=
  mkNotifyResult false (Some "Daily limit reached") false true None None None.

(** [supabase.auth.admin.getUserById(userId)]: [data] is the account's
    [notifications_enabled] when the account exists ([userData?.user]),
    an unknown account answers with an error. *)
Definition getUserById (userId : value) : Async (Response value) :=
  match auth_fault env with
  | Some (ReturnsError msg) => mret (mkResponse None (Some msg))
  | Some (Rejects msg) => throw msg
  | None =>
      s ← get_store;
      match auth_users s !! userId with
      | Some enabled => mret (mkResponse (Some enabled) None)
      | None => mret (mkResponse None (Some "User not found"))
      end
  end.

(** The preference check of [sendNotificationToUser]: [true] when the
    function returns the skipped result. *)
Definition notifications_disabled (userId : value) : Async bool :=
  try_catch
    (r ← getUserById userId;
     match error r, data r with
     | None, Some notificationsEnabled =>
         mret (strict_eq notificationsEnabled (VBool false))
     | _, _ => mret false
     end)
    (fun _ => mret false).

Definition insert_notification (row : NotificationRow) : Async unit :=
  s ← get_store;
  put_store (mkStore (auth_users s) (notifications s ++ [row])
               (fcm_tokens s) (weather_alerts_sent s)).

(** [.from('fcm_tokens').select('token, device_type').eq('user_id', userId)] *)
Definition tokens_of (userId : value) (s : Store) : list TokenRow :=
  filter (fun t => sql_eq (tok_user_id t) userId = true) (fcm_tokens s).

Definition select_tokens (userId : value) : Async (list TokenRow) :=
  s ← get_store;
  mret (tokens_of userId s).

(** [try { await supabase.from('notifications').insert({...}) } catch {}]:
    the answer of the insert is not looked at. *)
Definition save_notification (userId : value) (n : Notification)
    : Async unit :=
  let link :=
    js_or (js_or (default VUndefined (ndata n !! "url"))
                 (default VUndefined (ndata n !! "link"))) VNull in
  try_catch
    (_ ← store_call (notifications_fault env)
           (insert_notification
              (mkNotificationRow userId (title n) (body n) link false));
     mret tt)
    (fun _ => mret tt).

(** What [sendNotificationToUser] does once the preference check lets it
    through: persist a copy, fetch the tokens, fan out. *)
Definition deliver (userId : value) (n : Notification) : Async NotifyResult :=
  _ ← save_notification userId n;
  r ← store_call (tokens_fault env) (select_tokens userId);
  match error r with
  | Some msg => mret (failure msg)
  | None =>
      let tokens := default [] (data r) in
      if (length tokens =? 0)%nat then mret no_tokens_result
      else
        let tokenList := map token tokens in
        result ← sendPushNotificationToMultiple
                   (js_or (NEXT_PUBLIC_FIREBASE_PROJECT_ID env)
                          (FIREBASE_PROJECT_ID env))
                   tokenList (title n) (body n)
                   (<["userId" := VStr (js_String userId)]>
                      (<["timestamp" := VNum (clock env)]> (ndata n)));
        mret (mkNotifyResult true None false false
                (Some (fan_success result)) (Some (fan_failed result))
                (Some (length tokenList)))
  end.

Definition sendNotificationToUser (userId : value) (n : Notification)
    : Async NotifyResult :=
  try_catch
    (if negb (truthy userId) then mret (failure "User ID required")
     else
       disabled ← notifications_disabled userId;
       if disabled : bool then mret skipped_result
       else deliver userId n)
    (fun msg => mret (failure msg)).

(** *** Rate-limited weather alerts *)

Definition day_ms : Z := 86400000.

(** [today.setHours(0, 0, 0, 0)] on [new Date()]: the last local midnight,
    for a zone whose offset from UTC ([tz_offset], in milliseconds, local
    minus UTC) does not change during the day. *)
Definition startOfLocalDay : Z :=
  (clock env - (clock env + tz_offset env) mod day_ms)%Z.

(** [.eq('user_id', userId).gte('sent_at', todayStart)] *)
Definition alerts_since (userId : value) (todayStart : Z) (s : Store)
    : list AlertRow :=
  filter
    (fun a => sql_eq (alert_user_id a) userId && (todayStart <=? sent_at a)%Z
              = true)
    (weather_alerts_sent s).

Record CanSend := mkCanSend {
  canSend : bool;
  count : nat;
}.

Definition canSendWeatherAlert (userId : value) : Async CanSend :=
  try_catch
    (let todayStart := startOfLocalDay in
     r ← store_call (alerts_read_fault env)
           (s ← get_store; mret (alerts_since userId todayStart s));
     match error r with
     | Some _ => mret (mkCanSend true 0)
     | None =>
         let count := length (default [] (data r)) in
         mret (mkCanSend (count <? 3)%nat count)
     end)
    (fun _ => mret (mkCanSend true 0)).

Definition insert_alert (row : AlertRow) : Async unit :=
  s ← get_store;
  put_store (mkStore (auth_users s) (notifications s) (fcm_tokens s)
               (weather_alerts_sent s ++ [row])).

Definition recordWeatherAlertSent (userId alertType : value)
    (weatherData : gmap string value) : Async unit :=
  try_catch
    (_ ← store_call (alerts_write_fault env)
           (insert_alert (mkAlertRow userId alertType weatherData (clock env)));
     mret tt)
    (fun _ => mret tt).

Record Alert := mkAlert {
  alert_kind : value;
  alert_title : value;
  alert_body : value;
  alert_weatherData : gmap string value;
}.

(** The notification of an alert; in its data the properties spread from
    [alert.weatherData] come last and win. *)
Definition weather_notification (alert : Alert) : Notification :=
  mkNotification (alert_title alert) (alert_body alert)
    (alert_weatherData alert
     ∪ <["type" := VStr "weather_alert"]>
         (<["alertType" := alert_kind alert]>
            (<["url" := VStr "/weather"]> ∅))).

Definition sendWeatherAlert (userId : value) (alert : Alert)
    : Async NotifyResult :=
  try_catch
    (c ← canSendWeatherAlert userId;
     if negb (canSend c) then mret limit_result
     else
       result ← sendNotificationToUser userId (weather_notification alert);
       if success result
       then _ ← recordWeatherAlertSent userId (alert_kind alert)
                  (alert_weatherData alert);
            mret result
       else mret result)
    (fun msg => mret (failure msg)).

End NotificationService.

(** ** Well-formed registries and the scenarios used below *)

(** Every set held by [userSocketMap] is a set (no repetition) and is not
    empty: the registry deletes an entry with its last socket. *)
Definition wf (st : Server) : Prop :=
  ∀ u s, userSocketMap st !! u = Some s → NoDup s ∧ s ≠ [].

(** The socket ids direct delivery of a message goes to. *)
Definition recipient_sockets (st : Server) (d : SendData) (c : Convo)
    : list string :=
  if strict_eq (recipient_of d c) (sender_id d) then []
  else default [] (userSocketMap st !! recipient_of d c).

(** The online-status events of a run are edge-triggered: a step emits
    one event with [online = b] for the user when the user's count makes
    the crossing, and none otherwise. *)
Definition edge_triggered (b : bool) (tr : list (nat * nat * nat)) : bool :=
  forallb
    (fun '(before, after, k) =>
       (k =? (if crossing b before after then 1 else 0))%nat)
    tr.

(** No socket id is in the sets of two users. *)
Definition single_owner (st : Server) : Prop :=
  ∀ sid u1 u2 s1 s2,
    userSocketMap st !! u1 = Some s1 → userSocketMap st !! u2 = Some s2 →
    sid ∈ s1 → sid ∈ s2 → u1 = u2.

(** One tab that announces itself with both [registerUser] and
    [user-online]. *)
Definition double_registration : list input :=
  [Connect "s1"; RegisterUser "s1" (plain "u1"); RegisterUser "s1" (plain "u1")].

(** One connection that registers for a second account. *)
Definition account_switch : list input :=
  [Connect "s1"; RegisterUser "s1" (plain "u1"); RegisterUser "s1" (plain "u2")].

(** Two users, each on a connection of their own; [u2] has the
    conversation [c1] open in the chat room. *)
Definition two_users : list input :=
  [Connect "s1"; Connect "s2";
   RegisterUser "s1" (plain "u1"); RegisterUser "s2" (plain "u2");
   JoinConversation "s2" (VStr "c1")].

Definition hello : SendData := mkSendData (VStr "u1") (VStr "c1") (VStr "Hello").

Definition hello_row : Message :=
  mkMessage (VStr "m1") (VStr "c1") (VStr "u1") (VStr "Hello") None None.

Definition c1_row : Convo := mkConvo (VStr "u1") (VStr "u2").

(** [u2] reports the chats page and the open conversation [c1] on its own
    connection [s2]. *)
Definition u2_reports_reading : list input :=
  two_users ++
  [UserPage "s2" (VStr "u2") (VStr "chats");
   UserConversation "s2" (VStr "u2") (VStr "c1") (VBool true)].

(** The open conversation [c1] of [u2] is on record in both connections,
    the page on record is not the chats page. *)
Definition u2_reading_elsewhere : list input :=
  two_users ++
  [UserPage "s2" (VStr "u2") (VStr "home");
   UserConversation "s2" (VStr "u2") (VStr "c1") (VBool true);
   UserPage "s1" (VStr "u2") (VStr "home");
   UserConversation "s1" (VStr "u2") (VStr "c1") (VBool true)].

(** Connection [s1] has on record that [u2] is on the chats page with
    conversation [c1] open. *)
Definition u2_reading_on_record : list input :=
  two_users ++
  [UserPage "s1" (VStr "u2") (VStr "chats");
   UserConversation "s1" (VStr "u2") (VStr "c1") (VBool true)].

(** The three situations of the preference check: the account says
    [notifications_enabled: false]; the preference is read and is not
    [false]; the preference cannot be read (the call fails or the account
    is unknown). *)
Inductive preference := Disabled | Enabled | Unreadable.

Definition preference_of (env : Env) (w : World) (userId : value)
    : preference :=
  match auth_fault env with
  | Some _ => Unreadable
  | None =>
      match auth_users (store w) !! userId with
      | None => Unreadable
      | Some enabled =>
          if bool_decide (enabled = VBool false) then Disabled else Enabled
      end
  end.

(** [sendNotificationToUser] without its preference check. *)
Definition proceed (env : Env) (userId : value) (n : Notification)
    : Async NotifyResult :=
  try_catch (deliver env userId n) (fun msg => mret (failure msg)).

(** A user with two devices, no working push gateway, and two weather
    alerts already sent today. *)
Definition farmer : value := VStr "u1".

Definition sample_store : Store :=
  mkStore
    (<[farmer := VUndefined]> (<[VStr "u2" := VBool false]> ∅))
    []
    [mkTokenRow farmer (VStr "tokA") (VStr "web");
     mkTokenRow farmer (VStr "tokB") (VStr "android");
     mkTokenRow (VStr "u2") (VStr "tokC") (VStr "web")]
    [mkAlertRow farmer (VStr "rain") ∅ 1000;
     mkAlertRow farmer (VStr "wind") ∅ 2000].

Definition sample_world : World := mkWorld sample_store [].

Definition dead_gateway : Env :=
  mkEnv (VStr "agro") VUndefined 5000 0 None None None None None
    (fun _ => false).

Definition no_auth : Env :=
  mkEnv (VStr "agro") VUndefined 5000 0 (Some (Rejects "timeout")) None None
    None None (fun _ => true).

Definition storm : Alert :=
  mkAlert (VStr "wind") (VStr "Storm warning") (VStr "Strong wind tonight") ∅.

Definition storm_note : Notification :=
  mkNotification (VStr "Storm warning") (VStr "Strong wind tonight") ∅.

(** What the steps before the fan-out leave untouched. *)
Definition same_but_notifications (w w1 : World) : Prop :=
  pushes w1 = pushes w
  ∧ auth_users (store w1) = auth_users (store w)
  ∧ fcm_tokens (store w1) = fcm_tokens (store w)
  ∧ weather_alerts_sent (store w1) = weather_alerts_sent (store w).

(** Unfolds the monad of asynchronous code. *)
Ltac async_unfold :=
  unfold mbind, async_bind, mret, async_ret, try_catch, throw, store_call,
    get_store, put_store, log_push in *.

(** ** The rest of the handlers and of the notification service *)

#[global] Instance target_eq_dec : EqDecision target.
Proof. solve_decision. Defined.

(** How many of the emits [es] are addressed to the room of socket [sId]. *)
Definition addressed_to (sId : string) (es : list emit) : nat :=
  length (filter (fun e => emit_to e = ToRoom (VStr sId)) es).

(** Whether [sendPushNotification] for device token [t] resolves: a
    project id is known, the token is not empty, the gateway accepts. *)
Definition push_ok (env : Env) (projectId t : value) : bool :=
  truthy (js_or projectId (NEXT_PUBLIC_FIREBASE_PROJECT_ID env))
  && truthy t && fcm_accepts env t.

(** The click-through link of a push: [data.url || "/"]. *)
Definition link_of (data : gmap string value) : value :=
  js_or (default VUndefined (data !! "url")) (VStr "/").

(** The project id [sendNotificationToUser] hands to the fan-out. *)
Definition service_projectId (env : Env) : value :=
  js_or (NEXT_PUBLIC_FIREBASE_PROJECT_ID env) (FIREBASE_PROJECT_ID env).

(** The pushes a fan-out of notification [n] over the tokens [toks] adds
    to the log. *)
Definition fan_out_pushes (env : Env) (n : Notification) (toks : list value)
    : list Push :=
  map (fun t => mkPush t (title n) (body n) (link_of (ndata n)))
    (filter (fun t => push_ok env (service_projectId env) t = true) toks).

(** [sendNotificationToUsers]: the [{ success, failed, total }] object.
    The calls started by [userIds.map] are run one after the other here. *)
Record Tally := mkTally {
  tally_success : nat;
  tally_failed : nat;
  tally_total : nat;
}.

(** [r.status === 'fulfilled' && r.value.success] *)
Definition counts_success (r : outcome NotifyResult) : bool :=
  match r with
  | Returned v => success v
  | Thrown _ => false
  end.

(** [r.status === 'rejected' || !r.value?.success] *)
Definition counts_failed (r : outcome NotifyResult) : bool :=
  match r with
  | Thrown _ => true
  | Returned v => negb (success v)
  end.

Definition sendNotificationToUsers (env : Env) (userIds : list value)
    (n : Notification) : Async Tally :=
  results ← allSettled (map (fun userId => sendNotificationToUser env userId n) userIds);
  mret (mkTally
          (length (filter (fun r => counts_success r = true) results))
          (length (filter (fun r => counts_failed r = true) results))
          (length userIds)).

(** A series of [sendWeatherAlert] calls for one user. *)
Fixpoint sendWeatherAlerts (env : Env) (userId : value) (alerts : list Alert)
    (w : World) : World :=
  match alerts with
  | [] => w
  | alert :: alerts =>
      sendWeatherAlerts env userId alerts (sendWeatherAlert env userId alert w).2
  end.

(** The rows of a user that count against today's limit. *)
Definition sent_today (env : Env) (userId : value) (w : World) : nat :=
  length (alerts_since userId (startOfLocalDay env) (store w)).

(** The copy of a notification kept in the [notifications] table. *)
Definition notification_row (userId : value) (n : Notification)
    : NotificationRow :=
  mkNotificationRow userId (title n) (body n)
    (js_or (js_or (default VUndefined (ndata n !! "url"))
                  (default VUndefined (ndata n !! "link"))) VNull)
    false.

(** The world after [save_notification]: the copy is there unless the
    insert failed. *)
Definition saved (env : Env) (userId : value) (n : Notification) (w : World)
    : World :=
  match notifications_fault env with
  | None =>
      mkWorld
        (mkStore (auth_users (store w))
           (notifications (store w) ++ [notification_row userId n])
           (fcm_tokens (store w)) (weather_alerts_sent (store w)))
        (pushes w)
  | Some _ => w
  end.

(** The row [recordWeatherAlertSent] writes for an alert. *)
Definition alert_row (env : Env) (userId : value) (alert : Alert) : AlertRow :=
  mkAlertRow userId (alert_kind alert) (alert_weatherData alert) (clock env).

(** A gateway that accepts one of the two devices of [farmer]. *)
Definition half_gateway : Env :=
  mkEnv (VStr "agro") VUndefined 5000 0 None None None None None
    (fun t => bool_decide (t = VStr "tokA")).

(** [farmer] with three alerts already sent today. *)
Definition third_alert_world : World :=
  mkWorld
    (mkStore (auth_users sample_store) [] (fcm_tokens sample_store)
       (weather_alerts_sent sample_store
        ++ [mkAlertRow farmer (VStr "heat") ∅ 3000]))
    [].

(** Whether [canSendWeatherAlert] lets an alert through. *)
Definition gate_open (env : Env) (userId : value) (w : World) : bool :=
  match alerts_read_fault env with
  | None => (sent_today env userId w <? 3)%nat
  | Some _ => true
  end.

(** *** The text of a chat push ([sendMessage], push branch) *)

(** [s.trim()], for the white space of [is_js_space]. *)
Fixpoint trim_start (s : string) : string :=
  match s with
  | String c r => if is_js_space c then trim_start r else s
  | EmptyString => EmptyString
  end.

Definition trim (s : string) : string :=
  String.rev (trim_start (String.rev (trim_start s))).

(** The row of [userinfo] fetched for the sender. *)
Record SenderInfo := mkSenderInfo {
  firstName : value;
  lastName : value;
}.

(** [senderInfo ? `${senderInfo.firstName || ""} ${senderInfo.lastName || ""}`.trim()
    || "Someone" : "Someone"] *)
Definition senderName (senderInfo : option SenderInfo) : string :=
  match senderInfo with
  | Some i =>
      let name :=
        trim (js_String (js_or (firstName i) (VStr "")) +:+ " "
              +:+ js_String (js_or (lastName i) (VStr ""))) in
      if String.eqb name "" then "Someone" else name
  | None => "Someone"
  end.

(** [content.length > 100 ? content.substring(0, 100) + "..." : content],
    for a message whose content is a string. *)
Definition notificationBody (content : string) : string :=
  if (100 <? String.length content)%nat
  then String.substring 0 100 content +:+ "..."
  else content.

(** The notification handed to [sendNotificationToUser]: [product_id] is
    [conversation?.product_id], [product] the title of the row of
    [agri_products] when the lookup made for a product id finds one. *)
Definition chat_notification (senderInfo : option SenderInfo)
    (content : string) (product_id : value) (product : option value)
    (conversation_id sender_id message_id : value) : Notification :=
  let name := senderName senderInfo in
  let inquiry := if truthy product_id then product else None in
  mkNotification
    (VStr match inquiry with
          | Some t => "New inquiry about " +:+ js_String t
          | None => "New message from " +:+ name
          end)
    (VStr match inquiry with
          | Some _ => name +:+ " sent a message"
          | None => notificationBody content
          end)
    (<["type" := VStr (if truthy product_id then "product_inquiry"
                       else "chat_message")]>
       (<["conversationId" := conversation_id]>
          (<["senderId" := sender_id]>
             (<["messageId" := message_id]>
                (<["productId" := js_or product_id VNull]>
                   (<["url" := VStr ("/chats?conversation="
                                     +:+ js_String conversation_id)]>
                      (<["platform" := VStr "all"]> ∅))))))).

(** *** Conversations: [findOrCreateConversation], [clearConversation],
    [deleteConversation] *)

Record ConversationRow := mkConversationRow {
  conv_id : value;
  conv_user1_id : value;
  conv_user2_id : value;
  conv_product_id : value;
  conv_last_message_at : option Z;
  conv_deleted_at : option Z;
}.

#[global] Instance conversation_row_eq_dec : EqDecision ConversationRow.
Proof. solve_decision. Defined.

(** The [.or(...)] filter: the ids are written into the filter text, so a
    column is compared with [String(id)]. *)
Definition pair_filter (user1_id user2_id : value) (r : ConversationRow)
    : bool :=
  (sql_eq (conv_user1_id r) (VStr (js_String user1_id))
   && sql_eq (conv_user2_id r) (VStr (js_String user2_id)))
  || (sql_eq (conv_user1_id r) (VStr (js_String user2_id))
      && sql_eq (conv_user2_id r) (VStr (js_String user1_id))).

(** The newer server adds [.is("deleted_at", null)]. *)
Definition find_filter (ver : version) (user1_id user2_id : value)
    (r : ConversationRow) : bool :=
  pair_filter user1_id user2_id r
  && match ver with
     | Newer => bool_decide (conv_deleted_at r = None)
     | Older => true
     end.

Record FindFaults := mkFindFaults {
  find_fault : option fault;
  product_fault : option fault;
  create_fault : option fault;
}.

Definition no_find_faults : FindFaults := mkFindFaults None None None.

(** What the acknowledgement callback is called with. *)
Inductive find_ack :=
  | AckConversation (conversation_id : value)
  | AckError.

(** [.update({ product_id }).eq("id", id)] *)
Definition set_product (id product_id : value) (r : ConversationRow)
    : ConversationRow :=
  if sql_eq (conv_id r) id
  then mkConversationRow (conv_id r) (conv_user1_id r) (conv_user2_id r)
         product_id (conv_last_message_at r) (conv_deleted_at r)
  else r.

(** The handler on the [conversations] table.  Of the rows that match,
    ordered by [last_message_at] with [.limit(1)], the store returns one:
    [pick] stands for that choice.  [new_id] and [new_last] are the id and
    the [last_message_at] the store gives to an inserted row. *)
Definition findOrCreateConversation (ver : version)
    (pick : list ConversationRow → option ConversationRow) (f : FindFaults)
    (new_id : value) (new_last : option Z)
    (user1_id user2_id product_id : value) (convs : list ConversationRow)
    : list ConversationRow * find_ack :=
  match find_fault f with
  | Some _ => (convs, AckError)
  | None =>
      match pick (filter (fun r => find_filter ver user1_id user2_id r = true)
                    convs) with
      | Some existing =>
          if truthy product_id
             && negb (strict_eq (conv_product_id existing) product_id)
          then
            match product_fault f with
            | Some (Rejects _) => (convs, AckError)
            | Some (ReturnsError _) =>
                (convs, AckConversation (conv_id existing))
            | None =>
                (map (set_product (conv_id existing) product_id) convs,
                 AckConversation (conv_id existing))
            end
          else (convs, AckConversation (conv_id existing))
      | None =>
          match create_fault f with
          | Some _ => (convs, AckError)
          | None =>
              (convs
               ++ [mkConversationRow new_id user1_id user2_id
                     (js_or product_id VNull) new_last None],
               AckConversation new_id)
          end
      end
  end.

(** The live (not soft-deleted) conversations of a pair of users. *)
Definition live_pair_count (user1_id user2_id : value)
    (convs : list ConversationRow) : nat :=
  length (filter (fun r => pair_filter user1_id user2_id r
                           && bool_decide (conv_deleted_at r = None) = true)
            convs).

(** [.from("conversations").select(...).eq("id", conversation_id).single()] *)
Definition select_convo (conversation_id : value)
    (convs : list ConversationRow) : single ConversationRow :=
  match filter (fun r => sql_eq (conv_id r) conversation_id = true) convs with
  | [r] => Row r
  | _ => Failed "JSON object requested, multiple (or no) rows returned"
  end.

Record AdminFaults := mkAdminFaults {
  convo_fault : option fault;
  conversation_update_fault : option fault;
  messages_update_fault : option fault;
}.

Definition no_admin_faults : AdminFaults := mkAdminFaults None None None.

Inductive admin_event :=
  | ConversationCleared (conversation_id by_user_id : value) (cleared_count : nat)
  | ConversationDeleted (conversation_id by_user_id : value).

(** What the callback is called with: [{ success: true, clearedCount }]
    ([clearedCount] only from [clearConversation]) or
    [{ error: true, message }]. *)
Inductive admin_ack :=
  | AdminSuccess (clearedCount : option nat)
  | AdminError (message : string).

Record AdminResult := mkAdminResult {
  ar_conversations : list ConversationRow;
  ar_messages : list Message;
  ar_emits : list (target * admin_event);
  ar_ack : admin_ack;
}.

Definition set_deleted_at (now : Z) (m : Message) : Message :=
  mkMessage (msg_id m) (msg_conversation_id m) (msg_sender_id m)
    (msg_content m) (msg_read_at m) (Some now).

(** [.from("messages").update({ deleted_at: now }).eq("conversation_id", c)] *)
Definition soft_delete_messages (now : Z) (c : value) (ms : list Message)
    : list Message :=
  map (fun m => if sql_eq (msg_conversation_id m) c then set_deleted_at now m
                else m) ms.

Definition messages_of (c : value) (ms : list Message) : list Message :=
  filter (fun m => sql_eq (msg_conversation_id m) c = true) ms.

(** [.from("conversations").update({ deleted_at: now }).eq("id", c)] *)
Definition soft_delete_conversation (now : Z) (c : value)
    (convs : list ConversationRow) : list ConversationRow :=
  map (fun r => if sql_eq (conv_id r) c
                then mkConversationRow (conv_id r) (conv_user1_id r)
                       (conv_user2_id r) (conv_product_id r)
                       (conv_last_message_at r) (Some now)
                else r) convs.

(** The emit to the room followed by
    [[user1_id, user2_id].forEach(...)]: to every socket of both
    participants. *)
Definition admin_emits (st : Server) (c user1_id user2_id : value)
    (ev : admin_event) : list (target * admin_event) :=
  (ToRoom c, ev)
  :: flat_map
       (fun uid => map (fun sId => (ToRoom (VStr sId), ev))
                     (default [] (userSocketMap st !! uid)))
       [user1_id; user2_id].

Definition clearConversation (st : Server) (f : AdminFaults) (now : Z)
    (conversation_id user_id : value) (convs : list ConversationRow)
    (ms : list Message) : AdminResult :=
  let refused msg := mkAdminResult convs ms [] (AdminError msg) in
  if negb (truthy conversation_id) || negb (truthy user_id)
  then refused "Missing conversation_id or user_id"
  else
    match convo_fault f with
    | Some (Rejects _) => refused "Internal error"
    | Some (ReturnsError _) => refused "Conversation not found"
    | None =>
        match select_convo conversation_id convs with
        | Failed _ => refused "Conversation not found"
        | Row convo =>
            if negb (strict_eq user_id (conv_user1_id convo))
               && negb (strict_eq user_id (conv_user2_id convo))
            then refused "Unauthorized"
            else
              match messages_update_fault f with
              | Some _ => refused "Internal error"
              | None =>
                  let cleared := length (messages_of conversation_id ms) in
                  mkAdminResult convs
                    (soft_delete_messages now conversation_id ms)
                    (admin_emits st conversation_id (conv_user1_id convo)
                       (conv_user2_id convo)
                       (ConversationCleared conversation_id user_id cleared))
                    (AdminSuccess (Some cleared))
              end
        end
    end.

(** [v != null ? String(v) : null] *)
Definition string_or_null (v : value) : option string :=
  match v with
  | VUndefined | VNull => None
  | _ => Some (js_String v)
  end.

Definition deleteConversation (st : Server) (f : AdminFaults) (now : Z)
    (conversation_id user_id : value) (convs : list ConversationRow)
    (ms : list Message) : AdminResult :=
  let refused msg := mkAdminResult convs ms [] (AdminError msg) in
  if negb (truthy conversation_id) || negb (truthy user_id)
  then refused "Missing conversation_id or user_id"
  else
    match convo_fault f with
    | Some (Rejects _) => refused "Internal error"
    | Some (ReturnsError _) => refused "Conversation not found"
    | None =>
        match select_convo conversation_id convs with
        | Failed _ => refused "Conversation not found"
        | Row convo =>
            let uid := string_or_null user_id in
            let u1 := string_or_null (conv_user1_id convo) in
            let u2 := string_or_null (conv_user2_id convo) in
            if bool_decide (uid = None) || bool_decide (uid = Some "")
               || (negb (bool_decide (uid = u1)) && negb (bool_decide (uid = u2)))
            then refused "Unauthorized"
            else
              match conversation_update_fault f with
              | Some _ => refused "Internal error"
              | None =>
                  let convs' :=
                    soft_delete_conversation now conversation_id convs in
                  match messages_update_fault f with
                  | Some _ =>
                      mkAdminResult convs' ms [] (AdminError "Internal error")
                  | None =>
                      mkAdminResult convs'
                        (soft_delete_messages now conversation_id ms)
                        (admin_emits st conversation_id (conv_user1_id convo)
                           (conv_user2_id convo)
                           (ConversationDeleted conversation_id user_id))
                        (AdminSuccess None)
                  end
              end
        end
    end.

(** The conversation [c1] of [u1] and [u2] as a row of the store. *)
Definition c1_conversation : ConversationRow :=
  mkConversationRow (VStr "c1") (VStr "u1") (VStr "u2") VNull None None.

Definition messages_fail : AdminFaults :=
  mkAdminFaults None None (Some (ReturnsError "timeout")).

(** *** The origin check of the older server *)

(** [url.replace(/\/$/, "")]: one slash at the end of the text is
    removed. *)
Fixpoint normalize (url : string) : string :=
  match url with
  | EmptyString => EmptyString
  | String c r =>
      match r with
      | EmptyString => if Ascii.eqb c "/" then EmptyString else url
      | _ => String c (normalize r)
      end
  end.

(** [hay.includes(needle)] of [String.prototype]. *)
Fixpoint includes (needle hay : string) : bool :=
  String.prefix needle hay
  || match hay with
     | EmptyString => false
     | String _ r => includes needle r
     end.

(** [const allowedOrigins = "http://192.168.31.74:3000" ||
    "capacitor://localhost" || "agropeer://localhost"]: the value of the
    [||] chain is its first, non-empty, text. *)
Definition allowedOrigins : string :=
  js_String
    (js_or (VStr "http://192.168.31.74:3000")
       (js_or (VStr "capacitor://localhost") (VStr "agropeer://localhost"))).

(** The [origin] callback of the CORS options: [true] for
    [callback(null, true)], [false] for the "Not allowed by CORS" error.
    [None] is a request without [Origin] header. *)
Definition cors_allows (origin : option string) : bool :=
  match origin with
  | None => true
  | Some o =>
      if String.eqb o "" then true
      else includes (normalize o) allowedOrigins
  end.

(** ** Properties of the presence registry *)

Section SetLemmas.
Context {A : Type} `{EqDecision A}.
Implicit Types (x y : A) (s : list A).

Lemma elem_of_set_add x y s : y ∈ set_add x s ↔ y = x ∨ y ∈ s.
Proof.
  unfold set_add. case_bool_decide as Hin.
  - split; [auto | intros [-> | ?]; auto].
  - rewrite elem_of_app, list_elem_of_singleton. tauto.
Qed.

Lemma set_add_NoDup x s : NoDup s → NoDup (set_add x s).
Proof.
  intros Hs. unfold set_add. case_bool_decide as Hin; [done |].
  apply NoDup_app. split_and!; [done | | apply NoDup_singleton].
  intros y Hy ->%list_elem_of_singleton. contradiction.
Qed.

Lemma set_add_nonempty x s : set_add x s ≠ [].
Proof.
  unfold set_add. case_bool_decide as Hin.
  - intros ->. by apply not_elem_of_nil in Hin.
  - by destruct s.
Qed.

Lemma set_add_length x s :
  length (set_add x s) = if bool_decide (x ∈ s) then length s else S (length s).
Proof.
  unfold set_add. case_bool_decide; [done |].
  rewrite length_app. simpl. lia.
Qed.

Lemma elem_of_set_delete x y s : y ∈ set_delete x s ↔ y ≠ x ∧ y ∈ s.
Proof. unfold set_delete. by rewrite list_elem_of_filter. Qed.

Lemma set_delete_NoDup x s : NoDup s → NoDup (set_delete x s).
Proof. apply NoDup_filter. Qed.


End SetLemmas.

Lemma wf_initial : wf initial.
Proof. intros u s Hs. simpl in Hs. by rewrite lookup_empty in Hs. Qed.

Lemma markUserOnline_accepted ver sid p st u :
  resolve_userId ver p = Some u →
  markUserOnline ver sid p st =
    (with_map
       (<[u := set_add sid (default [] (userSocketMap st !! u))]> (userSocketMap st))
       (set_socket_userId sid u st),
     if (length (set_add sid (default [] (userSocketMap st !! u))) =? 1)%nat
     then [Emit ToAll (OnlineStatus u true None)] else []).
Proof. intros Hu. unfold markUserOnline. by rewrite Hu. Qed.

Lemma markUserOnline_rejected ver sid p st :
  resolve_userId ver p = None → markUserOnline ver sid p st = (st, []).
Proof. intros Hu. unfold markUserOnline. by rewrite Hu. Qed.

Lemma wf_markUserOnline ver sid p st :
  wf st → wf (markUserOnline ver sid p st).1.
Proof.
  intros Hwf. destruct (resolve_userId ver p) as [u |] eqn:Hu.
  - rewrite (markUserOnline_accepted _ _ _ _ _ Hu).
    intros u' s. simpl. rewrite lookup_insert. case_decide as Hk.
    + intros [= <-]. split; [| apply set_add_nonempty].
      apply set_add_NoDup.
      destruct (userSocketMap st !! u) as [s0 |] eqn:Hs0; simpl.
      * by apply (Hwf u s0).
      * apply NoDup_nil_2.
    + apply Hwf.
  - by rewrite (markUserOnline_rejected _ _ _ _ Hu).
Qed.

Lemma wf_disconnect sid now st : wf st → wf (disconnect sid now st).1.
Proof.
  intros Hwf. unfold disconnect.
  destruct (sockets st !! sid) as [sock |]; [| done].
  destruct (truthy (sock_userId sock)); simpl; [| done].
  destruct (userSocketMap st !! sock_userId sock) as [set |] eqn:Hset; [| done].
  destruct (Nat.eqb_spec (length (set_delete sid set)) 0) as [Hlen | Hlen]; simpl.
  - intros u s. simpl. rewrite lookup_delete. case_decide; [done | apply Hwf].
  - intros u s. simpl. rewrite lookup_insert. case_decide; [| apply Hwf].
    intros [= <-]. split.
    + apply set_delete_NoDup. by apply (Hwf _ _ Hset).
    + intros Hnil. by rewrite Hnil in Hlen.
Qed.

Lemma wf_step ver st i : wf st → wf (step ver st i).1.
Proof.
  intros Hwf. destruct i; simpl;
    try (destruct (connected st _); simpl; [| done]).
  - by destruct (sockets st !! sid).
  - by apply wf_markUserOnline.
  - done.
  - done.
  - done.
  - by apply wf_disconnect.
Qed.

Lemma wf_run ver ins : ∀ st, wf st → wf (run ver st ins).1.
Proof.
  induction ins as [| i ins IH]; intros st Hwf; [done |].
  simpl. destruct (step ver st i) as [st1 es1] eqn:Hstep.
  pose proof (wf_step ver st i Hwf) as Hwf1. rewrite Hstep in Hwf1.
  specialize (IH st1 Hwf1). by destruct (run ver st1 ins).
Qed.

(** X28.  When [markUserOnline] emits the online event: the user had no
    live connection, or the registering socket was the user's only one. *)
Lemma online_emitted_iff ver sid p st u :
  wf st → resolve_userId ver p = Some u →
  (markUserOnline ver sid p st).2 = [Emit ToAll (OnlineStatus u true None)]
  ↔ live_count st u = 0 ∨ userSocketMap st !! u = Some [sid].
Proof.
  intros Hwf Hu. rewrite (markUserOnline_accepted _ _ _ _ _ Hu). simpl.
  unfold live_count. rewrite set_add_length.
  destruct (userSocketMap st !! u) as [s |] eqn:Hs; simpl.
  - destruct (Hwf _ _ Hs) as [Hnd Hne].
    case_bool_decide as Hin.
    + destruct s as [| x [| y s]]; simpl; [done | | ].
      * apply list_elem_of_singleton in Hin as ->. split; auto.
      * split; [done | intros [? | ?]; congruence].
    + destruct s as [| x s]; [done |]. simpl.
      split; [by destruct s |].
      intros [? | [= -> ->]]; [done |].
      exfalso. apply Hin, list_elem_of_here.
  - split; auto.
Qed.


(** Registration keeps the sets of different users apart as long as the
    registering socket is in no other user's set; what breaks
    [single_owner] is a socket that registers for a second user id. *)
Lemma single_owner_markUserOnline ver sid p st u :
  resolve_userId ver p = Some u →
  (∀ u' s, userSocketMap st !! u' = Some s → sid ∈ s → u' = u) →
  single_owner st → single_owner (markUserOnline ver sid p st).1.
Proof.
  intros Hu Hfresh Hown. rewrite (markUserOnline_accepted _ _ _ _ _ Hu).
  intros x u1 u2 s1 s2. simpl. rewrite !lookup_insert.
  assert (Hin : ∀ u' s, userSocketMap st !! u' = Some s → u' ≠ u → x ∈ s →
                x ∈ set_add sid (default [] (userSocketMap st !! u)) → False).
  { intros u' s Hs Hne Hxs [-> | Hx]%elem_of_set_add.
    - by apply Hne, (Hfresh u' s).
    - destruct (userSocketMap st !! u) as [s0 |] eqn:Hs0; simpl in Hx.
      + by apply Hne, (Hown x u' u s s0).
      + by apply not_elem_of_nil in Hx. }
  repeat case_decide; subst.
  - done.
  - intros [= <-] Hs2 Hx1 Hx2. exfalso. by apply (Hin u2 s2).
  - intros Hs1 [= <-] Hx1 Hx2. exfalso. by apply (Hin u1 s1).
  - apply Hown.
Qed.

(** [disconnect] only takes socket ids out of the registry. *)
Lemma single_owner_disconnect sid now st :
  single_owner st → single_owner (disconnect sid now st).1.
Proof.
  intros Hown. unfold disconnect.
  destruct (sockets st !! sid) as [sock |]; [| done].
  destruct (truthy (sock_userId sock)); simpl; [| done].
  destruct (userSocketMap st !! sock_userId sock) as [set |] eqn:Hset; [| done].
  destruct (length (set_delete sid set) =? 0)%nat; simpl.
  - intros x u1 u2 s1 s2. simpl. rewrite !lookup_delete.
    repeat case_decide; try done. apply Hown.
  - intros x u1 u2 s1 s2. simpl. rewrite !lookup_insert.
    repeat case_decide; subst.
    + done.
    + intros [= <-] Hs2 [_ Hx1]%elem_of_set_delete Hx2.
      by apply (Hown x (sock_userId sock) u2 set s2).
    + intros Hs1 [= <-] Hx1 [_ Hx2]%elem_of_set_delete.
      by apply (Hown x u1 (sock_userId sock) s1 set).
    + apply Hown.
Qed.


(** C4 (code defect).  The online event is not edge-triggered: a socket
    that registers the same user twice (here with [registerUser] followed
    by [user-online]) makes the server emit [online-status] with
    [online = true] twice, although the user's live-connection count
    crosses from 0 to 1 only once; the third step keeps the count at 1 and
    still emits. *)
Theorem online_event_repeated_without_crossing (ver : version) :
  presence_trace ver (VStr "u1") true initial double_registration
    = [(0, 0, 0); (0, 1, 1); (1, 1, 1)]
  ∧ edge_triggered true
      (presence_trace ver (VStr "u1") true initial double_registration) = false
  ∧ (run ver initial double_registration).2
    = [Emit ToAll (OnlineStatus (VStr "u1") true None);
       Emit ToAll (OnlineStatus (VStr "u1") true None)].
Proof. destruct ver; vm_compute; done. Qed.

(** C7 (code defect of the older server).  [markUserOnline] of the older
    server has no validation: a registration without user id ([undefined])
    or with the empty string creates an entry in [userSocketMap] under
    that key and broadcasts an online event for it. *)
Theorem older_server_registers_missing_userId :
  let missing := mkPayload VUndefined VUndefined in
  let r1 := run Older initial [Connect "s1"; RegisterUser "s1" missing] in
  let r2 := run Older initial [Connect "s1"; RegisterUser "s1" (plain "")] in
  userSocketMap r1.1 !! VUndefined = Some ["s1"]
  ∧ r1.2 = [Emit ToAll (OnlineStatus VUndefined true None)]
  ∧ userSocketMap r2.1 !! VStr "" = Some ["s1"]
  ∧ r2.2 = [Emit ToAll (OnlineStatus (VStr "") true None)].
Proof. vm_compute. done. Qed.

(** C8 (code defect).  A connection that registers for a second user id
    stays in the first user's set: after [account_switch] socket [s1] is
    in the entries of both [u1] and [u2] ([single_owner] is broken), and
    since [disconnect] cleans
    only the entry of [socket.userId], the entry of [u1] survives the
    disconnection of [s1]. *)
Theorem socket_left_in_two_entries (ver : version) :
  let st := (run ver initial account_switch).1 in
  let st' := (run ver initial (account_switch ++ [Disconnect "s1" 0%Z])).1 in
  userSocketMap st !! VStr "u1" = Some ["s1"]
  ∧ userSocketMap st !! VStr "u2" = Some ["s1"]
  ∧ ¬ single_owner st
  ∧ connected st' "s1" = false
  ∧ userSocketMap st' !! VStr "u1" = Some ["s1"]
  ∧ userSocketMap st' !! VStr "u2" = None.
Proof.
  intros st st'.
  assert (H1 : userSocketMap st !! VStr "u1" = Some ["s1"])
    by (destruct ver; vm_compute; done).
  assert (H2 : userSocketMap st !! VStr "u2" = Some ["s1"])
    by (destruct ver; vm_compute; done).
  split_and!; [done | done | | destruct ver; vm_compute; done ..].
  intros Hown.
  specialize (Hown "s1" _ _ _ _ H1 H2 (list_elem_of_here _ _) (list_elem_of_here _ _)).
  discriminate.
Qed.

(** ** Properties of the activity tracker *)

(** A page report is read back by the handlers of the connection that
    received it. *)
Lemma user_page_same_connection sid u pg st :
  is_Some (sockets st !! sid) →
  page (observed_activity (on_user_page sid u pg st) sid u) = pg.
Proof.
  intros [s Hs]. unfold observed_activity, on_user_page, update_socket. simpl.
  rewrite lookup_alter_eq, Hs. simpl.
  unfold upsert_activity. by rewrite lookup_insert_eq.
Qed.

(** It is not seen by the handlers of any other connection. *)
Lemma user_page_other_connection sid sid' u u' pg st :
  sid ≠ sid' →
  observed_activity (on_user_page sid u pg st) sid' u'
  = observed_activity st sid' u'.
Proof.
  intros Hne. unfold observed_activity, on_user_page, update_socket. simpl.
  by rewrite lookup_alter_ne.
Qed.

(** C2 (code defect).  [userActivity] is created inside the connection
    callback, one map per connection: what [u2] reports on its connection
    [s2] (chats page, conversation [c1] open) is read back on [s2], but
    the [sendMessage] handler of the sender's connection [s1] reads the
    empty default for [u2] and so decides for a push. *)
Theorem activity_not_shared_between_connections :
  let st := (run Newer initial u2_reports_reading).1 in
  observed_activity st "s2" (VStr "u2") = mkActivity (VStr "chats") (VStr "c1")
  ∧ observed_activity st "s1" (VStr "u2") = empty_activity
  ∧ sr_push (sendMessage st "s1" hello (Row hello_row) (Row c1_row))
    = Warranted (VStr "u2").
Proof. vm_compute. done. Qed.

(** ** Properties of [sendMessage] *)

(** The push is held back exactly when the recipient is online and the
    activity the handler reads says chats page and this conversation. *)
Lemma shouldSendNotification_false_iff st sid r c :
  shouldSendNotification st sid r c = false
  ↔ is_online st r = true
    ∧ page (observed_activity st sid r) = VStr "chats"
    ∧ activeConversation (observed_activity st sid r) = c.
Proof.
  unfold shouldSendNotification, strict_eq.
  rewrite !orb_false_iff, !negb_false_iff, !bool_decide_eq_true. tauto.
Qed.

Lemma sendMessage_delivered st sid d m c :
  truthy (sender_id d) = true → truthy (conversation_id d) = true →
  truthy (content d) = true →
  sr_emits (sendMessage st sid d (Row m) (Row c))
  = Emit (ToRoom (conversation_id d)) (ReceiveMessage m)
    :: map (fun sId => Emit (ToRoom (VStr sId)) (ReceiveMessage m))
         (recipient_sockets st d c).
Proof.
  intros Hs Hc Hm. unfold sendMessage. rewrite Hs, Hc, Hm. simpl.
  f_equal. unfold direct_emits, recipient_sockets.
  destruct (userSocketMap st !! recipient_of d c);
    by destruct (strict_eq (recipient_of d c) (sender_id d)).
Qed.

(** C1, as stated, fails: [u2] is online and the activity on record for
    [u2], in its own connection and in the sender's, has
    [activeConversation] equal to the conversation id, but the page on
    record is not ["chats"], and the handler decides for a push. *)
Lemma push_sent_to_reader_off_chats_page :
  let st := (run Newer initial u2_reading_elsewhere).1 in
  is_online st (VStr "u2") = true
  ∧ activeConversation (observed_activity st "s1" (VStr "u2")) = conversation_id hello
  ∧ activeConversation (observed_activity st "s2" (VStr "u2")) = conversation_id hello
  ∧ sr_push (sendMessage st "s1" hello (Row hello_row) (Row c1_row))
    = Warranted (VStr "u2").
Proof. vm_compute. done. Qed.

(** C1 (amended).  When the recipient is another user than the sender, is
    online, and the activity the handler reads for the recipient has page
    ["chats"] and [activeConversation] equal to the conversation id, then
    [shouldSendNotification] is false and the push branch is not entered,
    while the message is emitted to the conversation room and to each
    socket of the recipient. *)
Theorem no_push_to_reader_on_chats_page st sid d m c :
  truthy (sender_id d) = true → truthy (conversation_id d) = true →
  truthy (content d) = true →
  recipient_of d c ≠ sender_id d →
  is_online st (recipient_of d c) = true →
  page (observed_activity st sid (recipient_of d c)) = VStr "chats" →
  activeConversation (observed_activity st sid (recipient_of d c))
    = conversation_id d →
  let r := sendMessage st sid d (Row m) (Row c) in
  shouldSendNotification st sid (recipient_of d c) (conversation_id d) = false
  ∧ (∀ x, sr_push r ≠ Warranted x)
  ∧ ∃ recipientSockets,
      userSocketMap st !! recipient_of d c = Some recipientSockets
      ∧ sr_emits r
        = Emit (ToRoom (conversation_id d)) (ReceiveMessage m)
          :: map (fun sId => Emit (ToRoom (VStr sId)) (ReceiveMessage m))
               recipientSockets.
Proof.
  intros Hs Hc Hm Hne Hon Hpage Hconv r.
  assert (Hshould :
    shouldSendNotification st sid (recipient_of d c) (conversation_id d) = false).
  { unfold shouldSendNotification, strict_eq.
    rewrite Hon, Hpage, Hconv. by rewrite !bool_decide_eq_true_2. }
  split_and!.
  - exact Hshould.
  - intros x. subst r. unfold sendMessage. rewrite Hs, Hc, Hm, Hshould. simpl.
    by destruct (truthy (recipient_of d c) && _).
  - unfold is_online in Hon. apply bool_decide_eq_true in Hon as [l Hl].
    exists l. split; [done |]. subst r.
    rewrite sendMessage_delivered by done. unfold recipient_sockets, strict_eq.
    by rewrite bool_decide_eq_false_2, Hl.
Qed.

Lemma no_push_to_reader_on_chats_page_witness :
  let st := (run Newer initial u2_reading_on_record).1 in
  let r := sendMessage st "s1" hello (Row hello_row) (Row c1_row) in
  shouldSendNotification st "s1" (recipient_of hello c1_row) (conversation_id hello)
    = false
  ∧ (∀ x, sr_push r ≠ Warranted x)
  ∧ ∃ recipientSockets,
      userSocketMap st !! recipient_of hello c1_row = Some recipientSockets
      ∧ sr_emits r
        = Emit (ToRoom (conversation_id hello)) (ReceiveMessage hello_row)
          :: map (fun sId => Emit (ToRoom (VStr sId)) (ReceiveMessage hello_row))
               recipientSockets.
Proof.
  apply (no_push_to_reader_on_chats_page
           (run Newer initial u2_reading_on_record).1 "s1" hello hello_row c1_row);
    vm_compute; done.
Defined.







(** ** Properties of [markAsRead] *)

Section MarkAsRead.
Variables (c reader : value).

Lemma read_row_not_unread now m :
  unread_from_others c reader (set_read_at now m) = false.
Proof. unfold unread_from_others. simpl. by rewrite andb_false_r. Qed.

Lemma no_unread_after_update now ms :
  filter (fun m => unread_from_others c reader m = true)
    (update_read_at now c reader ms).1 = [].
Proof.
  simpl. induction ms as [| m ms IH]; [done |].
  simpl. rewrite filter_cons, IH.
  destruct (unread_from_others c reader m) eqn:Hm.
  - rewrite decide_False; [done |]. by rewrite read_row_not_unread.
  - rewrite decide_False; [done |]. by rewrite Hm.
Qed.

Lemma count_unread_after_update now ms :
  count_unread c reader (update_read_at now c reader ms).1 = 0.
Proof. unfold count_unread. by rewrite no_unread_after_update. Qed.

(** A second update finds nothing to change: a read timestamp, once set,
    stays. *)
Lemma update_read_at_again now1 now2 ms :
  update_read_at now2 c reader (update_read_at now1 c reader ms).1
  = ((update_read_at now1 c reader ms).1, []).
Proof.
  unfold update_read_at at 1. rewrite no_unread_after_update. simpl. f_equal.
  induction ms as [| m ms IH]; [done |].
  simpl. rewrite IH. f_equal.
  destruct (unread_from_others c reader m) eqn:Hm.
  - by rewrite read_row_not_unread.
  - by rewrite Hm.
Qed.

Lemma markAsRead_table st now ms :
  (markAsRead st no_read_faults now c reader ms).1
  = (update_read_at now c reader ms).1.
Proof.
  unfold markAsRead. simpl.
  by destruct (length _ =? 0)%nat.
Qed.

Lemma markAsRead_again st now1 now2 ms :
  markAsRead st no_read_faults now2 c reader (update_read_at now1 c reader ms).1
  = ((update_read_at now1 c reader ms).1,
     [Emit (ToRoom c) (MessagesSeen c reader [] 0)]).
Proof.
  unfold markAsRead. cbn [update_fails count_fails no_read_faults].
  rewrite update_read_at_again. cbn [length Nat.eqb default].
  by rewrite count_unread_after_update.
Qed.

(** C5.  When the store answers, two calls of [markAsRead] in a row for
    the same conversation and reader: the second call updates no message
    and leaves the table as the first call left it; each call emits
    [messagesSeen] to the conversation room, the first with the ids it
    updated, the second with none; each event carries the number of
    messages from others that are unread in the table after the call, and
    the two numbers are equal (both are 0). *)
Theorem markAsRead_idempotent st now1 now2 ms :
  let r1 := markAsRead st no_read_faults now1 c reader ms in
  let r2 := markAsRead st no_read_faults now2 c reader r1.1 in
  newly_updated now2 c reader r1.1 = []
  ∧ r2.1 = r1.1
  ∧ (∃ rest,
       r1.2 = Emit (ToRoom c)
                (MessagesSeen c reader (newly_updated now1 c reader ms)
                   (count_unread c reader r1.1)) :: rest)
  ∧ r2.2 = [Emit (ToRoom c) (MessagesSeen c reader [] (count_unread c reader r2.1))]
  ∧ count_unread c reader r1.1 = count_unread c reader r2.1.
Proof.
  intros r1 r2.
  assert (H1 : r1.1 = (update_read_at now1 c reader ms).1)
    by apply markAsRead_table.
  assert (H2 : r2 = (r1.1, [Emit (ToRoom c) (MessagesSeen c reader [] 0)])).
  { subst r2. rewrite H1. apply markAsRead_again. }
  assert (H0 : count_unread c reader r1.1 = 0).
  { rewrite H1. apply count_unread_after_update. }
  rewrite H2. cbn [fst snd]. rewrite H0.
  split_and!; try done.
  - unfold newly_updated. by rewrite H1, update_read_at_again.
  - clear H1 H2 H0 r2. subst r1. unfold markAsRead, newly_updated.
    cbn [update_fails count_fails no_read_faults].
    pose proof (count_unread_after_update now1 ms) as Hcount.
    destruct (update_read_at now1 c reader ms) as [ms' updated].
    cbn [fst snd default] in *. rewrite Hcount.
    destruct updated as [| m updated]; by eexists.
Qed.

End MarkAsRead.

(** ** Properties of the notification service *)

Lemma startOfLocalDay_spec env :
  (0 ≤ clock env - startOfLocalDay env < day_ms)%Z
  ∧ ((startOfLocalDay env + tz_offset env) mod day_ms = 0)%Z.
Proof.
  unfold startOfLocalDay, day_ms.
  pose proof (Z.mod_pos_bound (clock env + tz_offset env) 86400000) as Hb.
  split; [lia |].
  replace (clock env - (clock env + tz_offset env) mod 86400000 + tz_offset env)%Z
    with ((clock env + tz_offset env)
          - (clock env + tz_offset env) mod 86400000)%Z by lia.
  rewrite Zminus_mod, Z.mod_mod by lia.
  rewrite Z.sub_diag. done.
Qed.

Lemma elem_of_alerts_since userId todayStart s a :
  a ∈ alerts_since userId todayStart s
  ↔ a ∈ weather_alerts_sent s
    ∧ alert_user_id a = userId ∧ userId ≠ VNull
    ∧ (todayStart ≤ sent_at a)%Z.
Proof.
  unfold alerts_since, sql_eq. rewrite list_elem_of_filter.
  rewrite andb_true_iff, andb_true_iff, negb_true_iff, bool_decide_eq_false,
    bool_decide_eq_true, Z.leb_le.
  split; [intros [[[Hn <-] Ht] Ha] | intros (Ha & <- & Hn & Ht)]; done.
Qed.


(** Unless the account says [false], the preference check lets the call
    through. *)
Lemma not_disabled_proceeds env userId n w :
  truthy userId = true →
  preference_of env w userId ≠ Disabled →
  sendNotificationToUser env userId n w = proceed env userId n w.
Proof.
  intros Hu. unfold preference_of, sendNotificationToUser, proceed.
  unfold notifications_disabled, getUserById. rewrite Hu. async_unfold. simpl.
  destruct (auth_fault env) as [[msg | msg] |]; simpl; [done | done |].
  destruct (auth_users (store w) !! userId) as [enabled |]; simpl; [| done].
  unfold strict_eq. by case_bool_decide.
Qed.

(** C9.  For a user id that is given: when the account has
    [notifications_enabled] set to [false], [sendNotificationToUser]
    returns the skipped result and leaves the world as it is (no row is
    written to [notifications], no push goes out); when the preference is
    anything else, or cannot be read, it goes on to persist and to
    dispatch, the same way in both cases. *)
Theorem preference_check env userId n w :
  truthy userId = true →
  match preference_of env w userId with
  | Disabled =>
      sendNotificationToUser env userId n w = (Returned skipped_result, w)
  | Enabled | Unreadable =>
      sendNotificationToUser env userId n w = proceed env userId n w
  end.
Proof.
  intros Hu. unfold preference_of.
  destruct (auth_fault env) as [f |] eqn:Hfault.
  - unfold sendNotificationToUser, proceed, notifications_disabled, getUserById.
    rewrite Hu, Hfault. async_unfold. by destruct f.
  - destruct (auth_users (store w) !! userId) as [enabled |] eqn:Huser.
    + unfold sendNotificationToUser, proceed, notifications_disabled, getUserById.
      rewrite Hu, Hfault. async_unfold. simpl. rewrite Huser. simpl.
      unfold strict_eq. by case_bool_decide.
    + unfold sendNotificationToUser, proceed, notifications_disabled, getUserById.
      rewrite Hu, Hfault. async_unfold. simpl. by rewrite Huser.
Qed.

Lemma preference_check_witness :
  sendNotificationToUser dead_gateway (VStr "u2") storm_note sample_world
    = (Returned skipped_result, sample_world)
  ∧ sendNotificationToUser no_auth (VStr "u2") storm_note sample_world
    = proceed no_auth (VStr "u2") storm_note sample_world.
Proof.
  split.
  - apply (preference_check dead_gateway (VStr "u2") storm_note sample_world).
    reflexivity.
  - apply (preference_check no_auth (VStr "u2") storm_note sample_world).
    reflexivity.
Defined.

Lemma save_notification_returns env userId n w :
  ∃ w1, save_notification env userId n w = (Returned tt, w1)
        ∧ same_but_notifications w w1.
Proof.
  unfold save_notification, insert_notification, same_but_notifications.
  async_unfold.
  destruct (notifications_fault env) as [[msg | msg] |]; simpl;
    by eexists.
Qed.

Lemma sendPushNotification_rejected env pid t ti bo da w :
  fcm_accepts env t = false →
  ∃ msg, sendPushNotification env pid t ti bo da w = (Thrown msg, w).
Proof.
  intros Ht. unfold sendPushNotification, sendFcmMessage. simpl. rewrite Ht.
  destruct (truthy (js_or pid _)), (truthy t); simpl; by eexists.
Qed.

Lemma settle_all_rejected env pid ti bo da w toks :
  Forall (fun t => fcm_accepts env t = false) toks →
  ∃ rs, settle_all (map (fun t => sendPushNotification env pid t ti bo da) toks) w
        = (rs, w)
        ∧ length rs = length toks
        ∧ Forall (fun r => fulfilled r = false) rs.
Proof.
  induction 1 as [| t toks Ht Htoks (rs & Hrs & Hlen & Hall)].
  - by exists [].
  - destruct (sendPushNotification_rejected env pid t ti bo da w Ht) as [msg Hmsg].
    exists (Thrown msg :: rs). simpl. rewrite Hmsg, Hrs. simpl.
    split_and!; [done | by rewrite Hlen | by constructor].
Qed.

(** The two counts of a fan-out add up to the number of tokens. *)
Lemma settle_all_length {A} (ms : list (Async A)) w :
  length (settle_all ms w).1 = length ms.
Proof.
  revert w. induction ms as [| m ms IH]; intros w; [done |].
  simpl. destruct (m w) as [r w1]. specialize (IH w1).
  destruct (settle_all ms w1). simpl in *. by rewrite IH.
Qed.

(** The fan-out never fails for a non-empty token list, and its two
    counts add up to the number of tokens: no send aborts its siblings. *)
Lemma fan_out_total env pid toks ti bo da w :
  toks ≠ [] →
  ∃ fo w1, sendPushNotificationToMultiple env pid toks ti bo da w
           = (Returned fo, w1)
           ∧ fan_success fo + fan_failed fo = length toks.
Proof.
  intros Hne. unfold sendPushNotificationToMultiple, allSettled.
  destruct toks as [| t toks]; [done |]. cbn [length Nat.eqb].
  async_unfold.
  pose proof (settle_all_length
    (map (fun t => sendPushNotification env pid t ti bo da) (t :: toks)) w) as Hlen.
  destruct (settle_all _ w) as [rs w1]. do 2 eexists. split; [done |].
  simpl in *. rewrite length_map in Hlen. rewrite <- Hlen. clear.
  induction rs as [| r rs IH]; [done |].
  rewrite !filter_cons. destruct (fulfilled r).
  - rewrite decide_True, decide_False by done. simpl. by rewrite IH.
  - rewrite decide_False, decide_True by done. simpl. lia.
Qed.

Lemma all_rejected_counts {A} (rs : list (outcome A)) :
  Forall (fun r => fulfilled r = false) rs →
  length (filter (fun r => fulfilled r = true) rs) = 0
  ∧ length (filter (fun r => fulfilled r = false) rs) = length rs.
Proof.
  induction 1 as [| r rs Hr Hrs [IH1 IH2]]; [done |].
  rewrite !filter_cons.
  rewrite (decide_False (P := fulfilled r = true)) by (by rewrite Hr).
  rewrite (decide_True (P := fulfilled r = false)) by done.
  simpl. by rewrite IH1, IH2.
Qed.

Lemma deliver_all_rejected env userId n w :
  tokens_fault env = None →
  tokens_of userId (store w) ≠ [] →
  Forall (fun t => fcm_accepts env (token t) = false) (tokens_of userId (store w)) →
  let total := length (tokens_of userId (store w)) in
  ∃ w1, deliver env userId n w
        = (Returned (mkNotifyResult true None false false (Some 0) (Some total)
                       (Some total)), w1)
        ∧ same_but_notifications w w1.
Proof.
  intros Hfault Hne Hall total. subst total.
  destruct (save_notification_returns env userId n w) as (w1 & Hsave & Hsame).
  exists w1. split; [| done].
  destruct Hsame as (Hp & Hau & Htok & Hal).
  unfold deliver. unfold mbind at 1, async_bind at 1. rewrite Hsave.
  unfold select_tokens, sendPushNotificationToMultiple, allSettled.
  rewrite Hfault. async_unfold. simpl.
  assert (Heq : tokens_of userId (store w1) = tokens_of userId (store w))
    by (unfold tokens_of; by rewrite Htok).
  rewrite Heq.
  destruct (tokens_of userId (store w)) as [| t0 toks] eqn:Htoks; [done |].
  cbn [length Nat.eqb]. rewrite length_map. cbn [length Nat.eqb].
  set (pid := js_or _ _). set (da := <["userId" := VStr (js_String userId)]> _).
  destruct (settle_all_rejected env pid (title n) (body n) da w1
              (map token (t0 :: toks))) as (rs & Hrs & Hlen & Hrej).
  { by apply Forall_map. }
  rewrite Hrs. destruct (all_rejected_counts rs Hrej) as [-> ->].
  rewrite Hlen, !length_map. done.
Qed.

Lemma canSendWeatherAlert_returns env userId w :
  ∃ r, canSendWeatherAlert env userId w = (Returned r, w).
Proof.
  unfold canSendWeatherAlert. async_unfold.
  destruct (alerts_read_fault env) as [[msg | msg] |]; simpl; by eexists.
Qed.

Lemma sendNotificationToUser_all_rejected env userId n w :
  truthy userId = true →
  preference_of env w userId ≠ Disabled →
  tokens_fault env = None →
  tokens_of userId (store w) ≠ [] →
  Forall (fun t => fcm_accepts env (token t) = false) (tokens_of userId (store w)) →
  let total := length (tokens_of userId (store w)) in
  ∃ w1, sendNotificationToUser env userId n w
        = (Returned (mkNotifyResult true None false false (Some 0) (Some total)
                       (Some total)), w1)
        ∧ same_but_notifications w w1.
Proof.
  intros Hu Hpref Hfault Hne Hall total.
  destruct (deliver_all_rejected env userId n w Hfault Hne Hall)
    as (w1 & Hdel & Hsame).
  exists w1. split; [| done].
  rewrite (not_disabled_proceeds env userId n w Hu Hpref).
  unfold proceed, try_catch. by rewrite Hdel.
Qed.

(** C10.  For a user with at least one device token whose preference
    does not forbid notifications: when every per-token send fails,
    [sendNotificationToUser] still returns [success: true], with
    [sent = 0] and [failed = total]; and [sendWeatherAlert], when the
    gate lets the alert through, returns that result and appends a row for
    the alert to [weather_alerts_sent]. *)
Theorem all_sends_failed_still_success env userId n alert w :
  truthy userId = true →
  preference_of env w userId ≠ Disabled →
  tokens_fault env = None →
  tokens_of userId (store w) ≠ [] →
  Forall (fun t => fcm_accepts env (token t) = false) (tokens_of userId (store w)) →
  (∃ k, (canSendWeatherAlert env userId w).1 = Returned (mkCanSend true k)) →
  alerts_write_fault env = None →
  let total := length (tokens_of userId (store w)) in
  let all_failed :=
    mkNotifyResult true None false false (Some 0) (Some total) (Some total) in
  (sendNotificationToUser env userId n w).1 = Returned all_failed
  ∧ (sendWeatherAlert env userId alert w).1 = Returned all_failed
  ∧ weather_alerts_sent (store (sendWeatherAlert env userId alert w).2)
    = weather_alerts_sent (store w)
      ++ [mkAlertRow userId (alert_kind alert) (alert_weatherData alert)
            (clock env)].
Proof.
  intros Hu Hpref Hfault Hne Hall [k Hgate] Hwrite total all_failed.
  split.
  - destruct (sendNotificationToUser_all_rejected env userId n w)
      as (w1 & -> & _); done.
  - destruct (canSendWeatherAlert_returns env userId w) as [c Hc].
    rewrite Hc in Hgate. simpl in Hgate. injection Hgate as ->.
    destruct (sendNotificationToUser_all_rejected env userId
                (weather_notification alert) w)
      as (w1 & Hsend & Hsame); [done .. |].
    destruct Hsame as (_ & _ & _ & Halerts).
    assert (Hrun : ∃ w2,
      sendWeatherAlert env userId alert w = (Returned all_failed, w2)
      ∧ weather_alerts_sent (store w2)
        = weather_alerts_sent (store w1)
          ++ [mkAlertRow userId (alert_kind alert) (alert_weatherData alert)
                (clock env)]).
    { unfold sendWeatherAlert, recordWeatherAlertSent, insert_alert.
      unfold try_catch at 1. unfold mbind at 1, async_bind at 1. rewrite Hc.
      cbn [canSend negb]. unfold mbind at 1, async_bind at 1. rewrite Hsend.
      cbn [success]. rewrite Hwrite. async_unfold. simpl. by eexists. }
    destruct Hrun as (w2 & -> & Hrows). simpl.
    by rewrite Hrows, Halerts.
Qed.

Lemma all_sends_failed_still_success_witness :
  let all_failed := mkNotifyResult true None false false (Some 0) (Some 2) (Some 2) in
  (sendNotificationToUser dead_gateway farmer storm_note sample_world).1
    = Returned all_failed
  ∧ (sendWeatherAlert dead_gateway farmer storm sample_world).1
    = Returned all_failed
  ∧ weather_alerts_sent
      (store (sendWeatherAlert dead_gateway farmer storm sample_world).2)
    = weather_alerts_sent sample_store ++ [mkAlertRow farmer (VStr "wind") ∅ 5000].
Proof.
  apply (all_sends_failed_still_success dead_gateway farmer storm_note storm
           sample_world).
  - reflexivity.
  - vm_compute. discriminate.
  - reflexivity.
  - vm_compute. discriminate.
  - apply (bool_decide_unpack _). vm_compute. exact I.
  - exists 2. vm_compute. reflexivity.
  - reflexivity.
Defined.

(** ** Further properties of the presence registry *)

Lemma step_userSocketMap_other ver st i :
  (∀ sid p, i ≠ RegisterUser sid p) → (∀ sid now, i ≠ Disconnect sid now) →
  userSocketMap (step ver st i).1 = userSocketMap st.
Proof.
  intros Hreg Hdis. destruct i; simpl;
    try (destruct (connected st _); simpl; done).
  - by destruct (sockets st !! sid).
  - by destruct (Hreg sid p).
  - by destruct (Hdis sid now).
Qed.

(** X1.  After any sequence of events, on either server, a user is in
    the registry ([isOnline]) exactly when the registry holds at least one
    socket id for the user: no entry with an empty set is ever left. *)
Theorem reachable_online_iff_live ver ins u :
  is_online (run ver initial ins).1 u = true
  ↔ 0 < live_count (run ver initial ins).1 u.
Proof.
  pose proof (wf_run ver ins initial wf_initial) as Hwf.
  unfold is_online, live_count. rewrite bool_decide_eq_true.
  destruct (userSocketMap (run ver initial ins).1 !! u) as [s |] eqn:Hs; simpl.
  - destruct (Hwf u s Hs) as [_ Hne]. split; [| eauto].
    intros _. destruct s; [done | simpl; lia].
  - split; [by intros [? ?] | lia].
Qed.





Lemma owner_step ver (owner : string → value) st i :
  (∀ sid p u, i = RegisterUser sid p → resolve_userId ver p = Some u →
              u = owner sid) →
  (∀ u s sid, userSocketMap st !! u = Some s → sid ∈ s → u = owner sid) →
  ∀ u s sid, userSocketMap (step ver st i).1 !! u = Some s → sid ∈ s →
             u = owner sid.
Proof.
  intros Hreg Hown.
  destruct i as [sid0 | sid0 p | sid0 c | sid0 x pg | sid0 x c a | sid0 now];
    try (rewrite step_userSocketMap_other by done; exact Hown).
  - simpl. destruct (connected st sid0); [| exact Hown].
    destruct (resolve_userId ver p) as [uid |] eqn:Hu.
    + rewrite (markUserOnline_accepted _ _ _ _ _ Hu). simpl.
      intros u s sid. rewrite lookup_insert. case_decide as Hk; [| apply Hown].
      intros [= <-] [-> | Hin]%elem_of_set_add; subst.
      * by apply (Hreg sid0 p).
      * destruct (userSocketMap st !! u) as [s0 |] eqn:Hs0; simpl in Hin.
        -- by apply (Hown u s0).
        -- by apply not_elem_of_nil in Hin.
    + by rewrite (markUserOnline_rejected _ _ _ _ Hu).
  - simpl. destruct (connected st sid0); [| exact Hown].
    unfold disconnect. destruct (sockets st !! sid0) as [sock |]; [| exact Hown].
    destruct (truthy (sock_userId sock)); simpl; [| exact Hown].
    destruct (userSocketMap st !! sock_userId sock) as [set |] eqn:Hset;
      [| exact Hown].
    destruct (length (set_delete sid0 set) =? 0)%nat; simpl; intros u s sid.
    + rewrite lookup_delete. case_decide; [done | apply Hown].
    + rewrite lookup_insert. case_decide; [| apply Hown].
      intros [= <-] [_ Hin]%elem_of_set_delete. subst. by apply (Hown _ set).
Qed.

Lemma owner_run ver (owner : string → value) ins :
  (∀ sid p u, RegisterUser sid p ∈ ins → resolve_userId ver p = Some u →
              u = owner sid) →
  ∀ st,
    (∀ u s sid, userSocketMap st !! u = Some s → sid ∈ s → u = owner sid) →
    ∀ u s sid, userSocketMap (run ver st ins).1 !! u = Some s → sid ∈ s →
               u = owner sid.
Proof.
  induction ins as [| i ins IH]; intros Hreg st Hown; [exact Hown |].
  simpl.
  assert (Hstep := owner_step ver owner st i).
  destruct (step ver st i) as [st1 es1].
  assert (Hown1 : ∀ u s sid, userSocketMap st1 !! u = Some s → sid ∈ s →
                             u = owner sid).
  { apply Hstep; [| exact Hown]. intros sid p u -> Hu.
    apply (Hreg sid p u); [apply list_elem_of_here | done]. }
  assert (Hreg' : ∀ sid p u, RegisterUser sid p ∈ ins →
                  resolve_userId ver p = Some u → u = owner sid).
  { intros sid p u Hin. apply Hreg. by apply list_elem_of_further. }
  specialize (IH Hreg' st1 Hown1). by destruct (run ver st1 ins).
Qed.

Lemma two_users_owner sid p u :
  RegisterUser sid p ∈ two_users → resolve_userId Newer p = Some u →
  u = (if bool_decide (sid = "s1") then VStr "u1" else VStr "u2").
Proof.
  intros Hin Hu. unfold two_users in Hin.
  repeat (apply elem_of_cons in Hin as [Hin | Hin]; [try discriminate Hin |]).
  - injection Hin as -> ->. vm_compute in Hu. by injection Hu as <-.
  - injection Hin as -> ->. vm_compute in Hu. by injection Hu as <-.
  - by apply not_elem_of_nil in Hin.
Qed.

Lemma two_users_single_owner : single_owner (run Newer initial two_users).1.
Proof.
  intros sid u1 u2 s1 s2 H1 H2 Hin1 Hin2.
  assert (Hinit : ∀ u s sid,
    userSocketMap initial !! u = Some s → sid ∈ s →
    u = (if bool_decide (sid = "s1") then VStr "u1" else VStr "u2")).
  { intros u s sid' Hs. simpl in Hs. by rewrite lookup_empty in Hs. }
  rewrite (owner_run Newer _ two_users two_users_owner initial Hinit u1 s1 sid H1 Hin1).
  by rewrite (owner_run Newer _ two_users two_users_owner initial Hinit u2 s2 sid H2 Hin2).
Qed.

(** X3.  As long as every socket registers for one user id only (all the
    registrations a socket sends resolve to the same id, [owner sid]), no
    socket id is ever in the sets of two users, on either server and
    whatever the order of connects, registrations and disconnects. *)
Theorem single_owner_when_one_id_per_socket ver (owner : string → value) ins :
  (∀ sid p u, RegisterUser sid p ∈ ins → resolve_userId ver p = Some u →
              u = owner sid) →
  single_owner (run ver initial ins).1.
Proof.
  intros Hreg sid u1 u2 s1 s2 H1 H2 Hin1 Hin2.
  assert (Hinit : ∀ u s sid, userSocketMap initial !! u = Some s → sid ∈ s →
                             u = owner sid).
  { intros u s sid' Hs. simpl in Hs. by rewrite lookup_empty in Hs. }
  rewrite (owner_run ver owner ins Hreg initial Hinit u1 s1 sid H1 Hin1).
  by rewrite (owner_run ver owner ins Hreg initial Hinit u2 s2 sid H2 Hin2).
Qed.

Lemma single_owner_when_one_id_per_socket_witness :
  single_owner (run Newer initial two_users).1.
Proof.
  apply (single_owner_when_one_id_per_socket Newer
           (fun sid => if bool_decide (sid = "s1") then VStr "u1" else VStr "u2")
           two_users).
  exact two_users_owner.
Defined.

Lemma online_emitted_iff_witness :
  (markUserOnline Newer "s2" (plain "u2") (run Newer initial two_users).1).2
    = [Emit ToAll (OnlineStatus (VStr "u2") true None)]
  ↔ live_count (run Newer initial two_users).1 (VStr "u2") = 0
    ∨ userSocketMap (run Newer initial two_users).1 !! VStr "u2" = Some ["s2"].
Proof.
  apply (online_emitted_iff Newer "s2" (plain "u2")
           (run Newer initial two_users).1 (VStr "u2")).
  - apply wf_run, wf_initial.
  - reflexivity.
Defined.



Lemma live_count_with_map_ne st m u k v :
  k ≠ u → live_count (with_map (<[k := v]> m) st) u = live_count (with_map m st) u.
Proof. intros Hne. unfold live_count. simpl. by rewrite lookup_insert_ne. Qed.








(** ** Further properties of the activity tracker and of [sendMessage] *)

(** X6.  On one connection [user:page] and [user:conversation] are
    independent upserts of the user's entry: a page report keeps the
    conversation on record, a conversation report keeps the page (an
    inactive one records [null]), and neither touches the entry of another
    user. *)
Theorem activity_upserts_independent sid u pg c a st :
  is_Some (sockets st !! sid) →
  let old := observed_activity st sid u in
  observed_activity (on_user_page sid u pg st) sid u
    = mkActivity pg (activeConversation old)
  ∧ observed_activity (on_user_conversation sid u c a st) sid u
    = mkActivity (page old) (if truthy a then c else VNull)
  ∧ ∀ u', u' ≠ u →
      observed_activity (on_user_page sid u pg st) sid u'
        = observed_activity st sid u'
      ∧ observed_activity (on_user_conversation sid u c a st) sid u'
        = observed_activity st sid u'.
Proof.
  intros [s Hs] old. subst old.
  unfold observed_activity, on_user_page, on_user_conversation, update_socket,
    upsert_activity.
  simpl. rewrite !lookup_alter_eq, Hs. simpl. rewrite !lookup_insert_eq.
  split_and!; [done | done |].
  intros u' Hne. by rewrite !lookup_insert_ne.
Qed.

Lemma activity_upserts_independent_witness :
  let st := (run Newer initial u2_reports_reading).1 in
  observed_activity (on_user_page "s2" (VStr "u2") (VStr "home") st) "s2" (VStr "u2")
    = mkActivity (VStr "home") (VStr "c1")
  ∧ observed_activity
      (on_user_conversation "s2" (VStr "u2") (VStr "c1") (VBool false) st)
      "s2" (VStr "u2")
    = mkActivity (VStr "chats") VNull
  ∧ ∀ u', u' ≠ VStr "u2" →
      observed_activity (on_user_page "s2" (VStr "u2") (VStr "home") st) "s2" u'
        = observed_activity st "s2" u'
      ∧ observed_activity
          (on_user_conversation "s2" (VStr "u2") (VStr "c1") (VBool false) st)
          "s2" u'
        = observed_activity st "s2" u'.
Proof.
  apply (activity_upserts_independent "s2" (VStr "u2") (VStr "home") (VStr "c1")
           (VBool false) (run Newer initial u2_reports_reading).1).
  vm_compute. eauto.
Defined.

(** X7.  A message to a recipient who is not in the registry: the handler
    emits to the conversation room only (there is no socket for a direct
    delivery) and decides for a push to the recipient, whatever activity
    is on record. *)
Theorem offline_recipient_gets_push st sid d m c :
  truthy (sender_id d) = true → truthy (conversation_id d) = true →
  truthy (content d) = true →
  truthy (recipient_of d c) = true →
  recipient_of d c ≠ sender_id d →
  is_online st (recipient_of d c) = false →
  sendMessage st sid d (Row m) (Row c)
  = mkSendResult [Emit (ToRoom (conversation_id d)) (ReceiveMessage m)]
      (Warranted (recipient_of d c)).
Proof.
  intros Hs Hc Hm Hr Hne Hoff.
  unfold sendMessage, shouldSendNotification, direct_emits.
  rewrite Hs, Hc, Hm, Hr, Hoff. simpl.
  unfold is_online in Hoff. apply bool_decide_eq_false in Hoff.
  destruct (userSocketMap st !! recipient_of d c) as [l |] eqn:Hl;
    [destruct Hoff; eauto |].
  unfold strict_eq. by rewrite bool_decide_eq_false_2.
Qed.

Lemma offline_recipient_gets_push_witness :
  sendMessage (run Newer initial [Connect "s1"; RegisterUser "s1" (plain "u1")]).1
    "s1" hello (Row hello_row) (Row c1_row)
  = mkSendResult [Emit (ToRoom (VStr "c1")) (ReceiveMessage hello_row)]
      (Warranted (VStr "u2")).
Proof.
  apply (offline_recipient_gets_push
           (run Newer initial [Connect "s1"; RegisterUser "s1" (plain "u1")]).1
           "s1" hello hello_row c1_row); vm_compute; done.
Defined.

(** X8.  [sendMessage] does not check that the sender takes part in the
    conversation: for a sender who is neither participant the first
    participant is taken as the recipient, the message is emitted to the
    room and to each of that participant's sockets, and the push decision
    is made for that participant. *)
Theorem outsider_message_is_delivered st sid d m c :
  truthy (sender_id d) = true → truthy (conversation_id d) = true →
  truthy (content d) = true →
  sender_id d ≠ user1_id c → sender_id d ≠ user2_id c →
  truthy (user1_id c) = true →
  sendMessage st sid d (Row m) (Row c)
  = mkSendResult
      (Emit (ToRoom (conversation_id d)) (ReceiveMessage m)
       :: map (fun sId => Emit (ToRoom (VStr sId)) (ReceiveMessage m))
            (default [] (userSocketMap st !! user1_id c)))
      (if shouldSendNotification st sid (user1_id c) (conversation_id d)
       then Warranted (user1_id c) else Suppressed).
Proof.
  intros Hs Hc Hm Hne1 Hne2 Hu1.
  assert (Hr : recipient_of d c = user1_id c).
  { unfold recipient_of, strict_eq. by rewrite bool_decide_eq_false_2. }
  unfold sendMessage, direct_emits. rewrite Hs, Hc, Hm, Hr, Hu1. simpl.
  unfold strict_eq. rewrite bool_decide_eq_false_2 by done. simpl.
  by destruct (userSocketMap st !! user1_id c).
Qed.

Lemma outsider_message_is_delivered_witness :
  sendMessage (run Newer initial two_users).1 "s9"
    (mkSendData (VStr "u9") (VStr "c1") (VStr "spam"))
    (Row hello_row) (Row c1_row)
  = mkSendResult
      [Emit (ToRoom (VStr "c1")) (ReceiveMessage hello_row);
       Emit (ToRoom (VStr "s1")) (ReceiveMessage hello_row)]
      (Warranted (VStr "u1")).
Proof.
  apply (outsider_message_is_delivered (run Newer initial two_users).1 "s9"
           (mkSendData (VStr "u9") (VStr "c1") (VStr "spam")) hello_row c1_row);
    vm_compute; done.
Defined.

(** ** Further properties of [markAsRead] *)

(** X9.  Whatever the store does, [markAsRead] changes nothing in the
    [messages] table but the read timestamp of messages of the
    conversation that come from others and were unread: such a row gets
    [read_at = now], every other row (a message already read, of another
    conversation, or written by the reader) stays as it is, so a read
    timestamp is never cleared or moved. *)
Theorem markAsRead_only_marks_unread st f now c reader ms :
  Forall2
    (fun m m' =>
       m' = m
       ∨ (msg_read_at m = None
          ∧ sql_eq (msg_conversation_id m) c = true
          ∧ sql_neq (msg_sender_id m) reader = true
          ∧ m' = set_read_at now m))
    ms (markAsRead st f now c reader ms).1.
Proof.
  assert (Hupd : Forall2
    (fun m m' =>
       m' = m
       ∨ (msg_read_at m = None
          ∧ sql_eq (msg_conversation_id m) c = true
          ∧ sql_neq (msg_sender_id m) reader = true
          ∧ m' = set_read_at now m))
    ms (update_read_at now c reader ms).1).
  { simpl. induction ms as [| m ms IH]; [constructor |].
    simpl. constructor; [| exact IH].
    destruct (unread_from_others c reader m) eqn:Hm; [| by left].
    right. unfold unread_from_others in Hm.
    apply andb_true_iff in Hm as [[Hc Hs]%andb_true_iff Hr].
    by apply bool_decide_eq_true in Hr. }
  unfold markAsRead. destruct (update_fails f).
  - simpl. clear Hupd. induction ms; constructor; auto.
  - destruct (update_read_at now c reader ms) as [ms' updated]. simpl in Hupd.
    by destruct (length updated =? 0)%nat, (count_fails f).
Qed.

Section Unique.
Context {A : Type} `{EqDecision A}.

Lemma foldl_set_add_spec (l acc : list A) :
  NoDup acc →
  NoDup (foldl (fun acc x => set_add x acc) acc l)
  ∧ ∀ x, x ∈ foldl (fun acc x => set_add x acc) acc l ↔ x ∈ acc ∨ x ∈ l.
Proof.
  revert acc. induction l as [| y l IH]; intros acc Hacc; simpl.
  - split; [done |]. intros x. rewrite elem_of_nil. tauto.
  - destruct (IH (set_add y acc) (set_add_NoDup y acc Hacc)) as [Hnd Hin].
    split; [done |]. intros x. rewrite Hin, elem_of_set_add, elem_of_cons. tauto.
Qed.

Lemma unique_NoDup (l : list A) : NoDup (unique l).
Proof. apply foldl_set_add_spec, NoDup_nil_2. Qed.

Lemma elem_of_unique (l : list A) x : x ∈ unique l ↔ x ∈ l.
Proof.
  unfold unique.
  destruct (foldl_set_add_spec l [] (NoDup_nil_2 (A:=A))) as [_ Hin].
  rewrite Hin, elem_of_nil. tauto.
Qed.

End Unique.

Lemma addressed_to_map sId ev (l : list string) :
  NoDup l →
  addressed_to sId (map (fun x => Emit (ToRoom (VStr x)) ev) l)
  = if bool_decide (sId ∈ l) then 1 else 0.
Proof.
  unfold addressed_to. induction 1 as [| x l Hx Hl IH]; [done |].
  simpl. rewrite filter_cons. simpl.
  destruct (decide (x = sId)) as [-> | Hne].
  - rewrite decide_True by done. simpl. rewrite IH.
    rewrite (bool_decide_eq_true_2 (sId ∈ sId :: l)) by apply list_elem_of_here.
    by rewrite (bool_decide_eq_false_2 (sId ∈ l)).
  - rewrite decide_False by congruence. rewrite IH.
    apply (f_equal (fun b : bool => if b then 1 else 0)).
    apply bool_decide_ext. rewrite elem_of_cons.
    split; [auto | intros [-> | ?]; [done | done]].
Qed.

Lemma addressed_to_seen_direct st sId ev senders :
  wf st → single_owner st → NoDup senders →
  let n := addressed_to sId (seen_direct_emits st senders ev) in
  n ≤ 1
  ∧ (n = 1 ↔ ∃ u, u ∈ senders ∧ sId ∈ default [] (userSocketMap st !! u)).
Proof.
  intros Hwf Hown Hnd n. subst n. unfold seen_direct_emits, addressed_to.
  induction Hnd as [| u senders Hu Hsenders IH].
  - simpl. split; [lia |]. split; [done |]. intros (u & Hin & _).
    by apply not_elem_of_nil in Hin.
  - simpl. rewrite filter_app, length_app.
    destruct IH as [IHle IHiff].
    destruct (userSocketMap st !! u) as [S |] eqn:HS.
    + destruct (Hwf u S HS) as [HSnd _].
      pose proof (addressed_to_map sId ev S HSnd) as HmapS.
      unfold addressed_to in HmapS. rewrite HmapS.
      case_bool_decide as Hin.
      * assert (Hrest : length (filter (fun e => emit_to e = ToRoom (VStr sId))
                  (flat_map (fun sid => match userSocketMap st !! sid with
                     | Some sSockets => map (fun x => Emit (ToRoom (VStr x)) ev) sSockets
                     | None => [] end) senders)) = 0).
        { destruct (length _) as [| [| k]] eqn:Hlen; [done | | lia].
          destruct (proj1 IHiff eq_refl) as (u' & Hu' & Hin').
          destruct (userSocketMap st !! u') as [S' |] eqn:HS'; simpl in Hin';
            [| by apply not_elem_of_nil in Hin'].
          assert (u = u') by apply (Hown sId u u' S S' HS HS' Hin Hin').
          by subst. }
        rewrite Hrest. split; [lia |]. split; [| done]. intros _.
        exists u. rewrite HS. split; [apply list_elem_of_here | done].
      * simpl. split; [done |]. rewrite IHiff. split.
        -- intros (u' & Hu' & Hin'). exists u'. split; [by apply list_elem_of_further | done].
        -- intros (u' & [-> | Hu']%elem_of_cons & Hin').
           ++ rewrite HS in Hin'. done.
           ++ exists u'. done.
    + simpl. split; [done |]. rewrite IHiff. split.
      * intros (u' & Hu' & Hin'). exists u'. split; [by apply list_elem_of_further | done].
      * intros (u' & [-> | Hu']%elem_of_cons & Hin').
        -- rewrite HS in Hin'. by apply not_elem_of_nil in Hin'.
        -- exists u'. done.
Qed.

(** X10.  When the store answers, [markAsRead] addresses the seen
    receipt to a socket exactly when the socket belongs to a user who
    wrote one of the messages just marked, and then once only, however
    many of that user's messages were marked (in a registry where each set
    has no repetition and no socket is in two sets; [c] is not the room of
    the socket itself). *)
Theorem senders_notified_once st now c reader ms sId :
  wf st → single_owner st → c ≠ VStr sId →
  let marked := filter (fun m => unread_from_others c reader m = true) ms in
  let n := addressed_to sId (markAsRead st no_read_faults now c reader ms).2 in
  n ≤ 1
  ∧ (n = 1 ↔ ∃ m, m ∈ marked
                  ∧ sId ∈ default [] (userSocketMap st !! msg_sender_id m)).
Proof.
  intros Hwf Hown Hc marked n.
  assert (Hsenders : ∀ u, u ∈ unique (map msg_sender_id (update_read_at now c reader ms).2)
                          ↔ ∃ m, m ∈ marked ∧ msg_sender_id m = u).
  { intros u. rewrite elem_of_unique. simpl. rewrite <- list_fmap_compose.
    rewrite list_elem_of_fmap. fold marked. split.
    - intros (m & -> & Hm). by exists m.
    - intros (m & Hm & <-). by exists m. }
  pose proof (addressed_to_seen_direct st sId
    (MessagesSeen c reader (map msg_id (update_read_at now c reader ms).2)
       (count_unread c reader (update_read_at now c reader ms).1))
    (unique (map msg_sender_id (update_read_at now c reader ms).2))
    Hwf Hown (unique_NoDup _)) as [Hle Hiff].
  assert (Hn : n = addressed_to sId
    (seen_direct_emits st (unique (map msg_sender_id (update_read_at now c reader ms).2))
       (MessagesSeen c reader (map msg_id (update_read_at now c reader ms).2)
          (count_unread c reader (update_read_at now c reader ms).1)))).
  { subst n. unfold markAsRead. cbn [update_fails count_fails no_read_faults].
    destruct (update_read_at now c reader ms) as [ms' updated]. cbn [fst snd].
    destruct updated as [| m0 updated]; cbn [length Nat.eqb]; cbv beta iota;
      cbn [snd]; unfold addressed_to; rewrite filter_cons, decide_False;
      first [done | simpl; congruence]. }
  rewrite Hn. split; [exact Hle |]. rewrite Hiff. split.
  - intros (u & Hu & Hin). apply Hsenders in Hu as (m & Hm & <-). eauto.
  - intros (m & Hm & Hin). exists (msg_sender_id m). split; [| done].
    apply Hsenders. eauto.
Qed.

Lemma senders_notified_once_witness :
  let st := (run Newer initial two_users).1 in
  let marked :=
    filter (fun m => unread_from_others (VStr "c1") (VStr "u2") m = true)
      [hello_row] in
  let n := addressed_to "s1"
             (markAsRead st no_read_faults 9 (VStr "c1") (VStr "u2") [hello_row]).2 in
  n ≤ 1
  ∧ (n = 1 ↔ ∃ m, m ∈ marked
                  ∧ "s1" ∈ default [] (userSocketMap st !! msg_sender_id m)).
Proof.
  apply (senders_notified_once (run Newer initial two_users).1 9 (VStr "c1")
           (VStr "u2") [hello_row] "s1").
  - apply wf_run, wf_initial.
  - exact two_users_single_owner.
  - discriminate.
Defined.

(** ** Further properties of the notification service *)

Lemma sendPushNotification_spec env pid t ti bo da w :
  (push_ok env pid t = true →
   sendPushNotification env pid t ti bo da w
   = (Returned tt, mkWorld (store w) (pushes w ++ [mkPush t ti bo (link_of da)])))
  ∧ (push_ok env pid t = false →
     ∃ msg, sendPushNotification env pid t ti bo da w = (Thrown msg, w)).
Proof.
  unfold push_ok, sendPushNotification, sendFcmMessage, log_push, throw, link_of.
  cbn [push_token].
  destruct (truthy (js_or pid _)), (truthy t), (fcm_accepts env t) eqn:Hacc;
    cbn [negb andb]; rewrite ?Hacc;
    split; intros; try done; by eexists.
Qed.

Lemma settle_all_fan_out env pid ti bo da toks w :
  ∃ rs,
    settle_all (map (fun t => sendPushNotification env pid t ti bo da) toks) w
    = (rs, mkWorld (store w)
             (pushes w
              ++ map (fun t => mkPush t ti bo (link_of da))
                   (filter (fun t => push_ok env pid t = true) toks)))
    ∧ Forall2 (fun t r => fulfilled r = push_ok env pid t) toks rs.
Proof.
  revert w. induction toks as [| t toks IH]; intros w.
  - exists []. simpl. rewrite app_nil_r. by destruct w.
  - simpl. rewrite filter_cons.
    destruct (sendPushNotification_spec env pid t ti bo da w) as [Hok Hno].
    destruct (push_ok env pid t) eqn:Ht.
    + rewrite (Hok eq_refl), decide_True by done.
      destruct (IH (mkWorld (store w) (pushes w ++ [mkPush t ti bo (link_of da)])))
        as (rs & -> & Hrs).
      exists (Returned tt :: rs). simpl. rewrite <- app_assoc. simpl.
      split; [done |]. constructor; [by rewrite Ht | done].
    + destruct (Hno eq_refl) as [msg ->]. rewrite decide_False by done.
      destruct (IH w) as (rs & -> & Hrs).
      exists (Thrown msg :: rs). split; [done |]. constructor; [by rewrite Ht | done].
Qed.

Lemma fulfilled_counts {A} (ok : value → bool) toks (rs : list (outcome A)) :
  Forall2 (fun t r => fulfilled r = ok t) toks rs →
  length (filter (fun r => fulfilled r = true) rs)
    = length (filter (fun t => ok t = true) toks)
  ∧ length (filter (fun r => fulfilled r = true) rs)
    + length (filter (fun r => fulfilled r = false) rs) = length toks.
Proof.
  induction 1 as [| t r toks rs Hr Hrs [IH1 IH2]]; [done |].
  rewrite !filter_cons. destruct (ok t) eqn:Ht; rewrite Hr.
  - rewrite !decide_True, decide_False by done. simpl. split; lia.
  - rewrite !decide_False, decide_True by done. simpl. split; lia.
Qed.

Lemma link_of_service_data (userId : value) (ts : value) (data : gmap string value) :
  link_of (<["userId" := userId]> (<["timestamp" := ts]> data)) = link_of data.
Proof. unfold link_of. by rewrite !lookup_insert_ne. Qed.

(** What [deliver] does, by the answer to the token query. *)
Lemma deliver_spec env userId n w :
  ∃ w1,
    save_notification env userId n w = (Returned tt, w1)
    ∧ same_but_notifications w w1
    ∧ deliver env userId n w
      = match tokens_fault env with
        | Some (ReturnsError msg) => (Returned (failure msg), w1)
        | Some (Rejects msg) => (Thrown msg, w1)
        | None =>
            let toks := map token (tokens_of userId (store w)) in
            let new := fan_out_pushes env n toks in
            if (length toks =? 0)%nat then (Returned no_tokens_result, w1)
            else (Returned
                    (mkNotifyResult true None false false (Some (length new))
                       (Some (length toks - length new)) (Some (length toks))),
                  mkWorld (store w1) (pushes w ++ new))
        end.
Proof.
  destruct (save_notification_returns env userId n w) as (w1 & Hsave & Hsame).
  exists w1. split_and!; [done | done |].
  destruct Hsame as (Hp & Hau & Htok & Hal).
  unfold deliver. unfold mbind at 1, async_bind at 1. rewrite Hsave.
  unfold select_tokens, sendPushNotificationToMultiple, allSettled.
  destruct (tokens_fault env) as [[msg | msg] |]; [by async_unfold | by async_unfold |].
  async_unfold. simpl.
  assert (Heq : tokens_of userId (store w1) = tokens_of userId (store w))
    by (unfold tokens_of; by rewrite Htok).
  rewrite Heq, !length_map.
  destruct (length (tokens_of userId (store w)) =? 0)%nat eqn:Hlen; [done |].
  destruct (settle_all_fan_out env (service_projectId env) (title n) (body n)
              (<["userId" := VStr (js_String userId)]>
                 (<["timestamp" := VNum (clock env)]> (ndata n)))
              (map token (tokens_of userId (store w))) w1) as (rs & Hrs & Hall).
  unfold service_projectId in Hrs. rewrite Hrs.
  destruct (fulfilled_counts _ _ _ Hall) as [Hs Hf].
  rewrite link_of_service_data, Hp. rewrite Hs.
  unfold fan_out_pushes. rewrite !length_map.
  unfold service_projectId. rewrite length_map in Hf.
  cbn [fan_success fan_failed]. rewrite Hs in Hf.
  unfold service_projectId in *. do 2 f_equal. f_equal. f_equal. lia.
Qed.

Lemma save_notification_spec env userId n w :
  save_notification env userId n w = (Returned tt, saved env userId n w).
Proof.
  unfold save_notification, insert_notification, saved, notification_row.
  async_unfold. by destruct (notifications_fault env) as [[msg | msg] |].
Qed.

Lemma disabled_skips env userId n w :
  truthy userId = true → preference_of env w userId = Disabled →
  sendNotificationToUser env userId n w = (Returned skipped_result, w).
Proof.
  intros Hu. unfold preference_of, sendNotificationToUser.
  unfold notifications_disabled, getUserById. rewrite Hu. async_unfold. simpl.
  destruct (auth_fault env) as [[msg | msg] |]; simpl; [done | done |].
  destruct (auth_users (store w) !! userId) as [enabled |]; simpl; [| done].
  unfold strict_eq. by case_bool_decide.
Qed.

(** [sendNotificationToUser], path by path. *)
Lemma sendNotificationToUser_spec env userId n w :
  sendNotificationToUser env userId n w
  = if negb (truthy userId) then (Returned (failure "User ID required"), w)
    else
      match preference_of env w userId with
      | Disabled => (Returned skipped_result, w)
      | Enabled | Unreadable =>
          match tokens_fault env with
          | Some (ReturnsError msg) | Some (Rejects msg) =>
              (Returned (failure msg), saved env userId n w)
          | None =>
              let toks := map token (tokens_of userId (store w)) in
              let new := fan_out_pushes env n toks in
              if (length toks =? 0)%nat
              then (Returned no_tokens_result, saved env userId n w)
              else (Returned
                      (mkNotifyResult true None false false (Some (length new))
                         (Some (length toks - length new)) (Some (length toks))),
                    mkWorld (store (saved env userId n w)) (pushes w ++ new))
          end
      end.
Proof.
  destruct (truthy userId) eqn:Hu; simpl.
  - assert (Hproceed : proceed env userId n w
      = match tokens_fault env with
        | Some (ReturnsError msg) | Some (Rejects msg) =>
            (Returned (failure msg), saved env userId n w)
        | None =>
            let toks := map token (tokens_of userId (store w)) in
            let new := fan_out_pushes env n toks in
            if (length toks =? 0)%nat
            then (Returned no_tokens_result, saved env userId n w)
            else (Returned
                    (mkNotifyResult true None false false (Some (length new))
                       (Some (length toks - length new)) (Some (length toks))),
                  mkWorld (store (saved env userId n w)) (pushes w ++ new))
        end).
    { destruct (deliver_spec env userId n w) as (w1 & Hsave & _ & Hdel).
      rewrite save_notification_spec in Hsave. injection Hsave as <-.
      unfold proceed, try_catch. rewrite Hdel.
      destruct (tokens_fault env) as [[msg | msg] |]; [done | done |].
      simpl. by destruct (length _ =? 0)%nat. }
    destruct (preference_of env w userId) eqn:Hpref;
      [by apply disabled_skips | ..];
      rewrite not_disabled_proceeds by (done || by rewrite Hpref); done.
  - unfold sendNotificationToUser, try_catch. by rewrite Hu.
Qed.

Lemma saved_frame env userId n w :
  pushes (saved env userId n w) = pushes w
  ∧ auth_users (store (saved env userId n w)) = auth_users (store w)
  ∧ fcm_tokens (store (saved env userId n w)) = fcm_tokens (store w)
  ∧ weather_alerts_sent (store (saved env userId n w))
    = weather_alerts_sent (store w)
  ∧ ∃ rows, notifications (store (saved env userId n w))
            = notifications (store w) ++ rows
            ∧ length rows ≤ 1.
Proof.
  unfold saved. destruct (notifications_fault env); simpl; split_and!; try done.
  - exists []. split; [by rewrite app_nil_r | simpl; lia].
  - exists [notification_row userId n]. split; [done | simpl; lia].
Qed.

Lemma sendNotificationToUser_returns env userId n w :
  ∃ r w1,
    sendNotificationToUser env userId n w = (Returned r, w1)
    ∧ weather_alerts_sent (store w1) = weather_alerts_sent (store w).
Proof.
  rewrite sendNotificationToUser_spec.
  destruct (saved_frame env userId n w) as (_ & _ & _ & Hal & _).
  destruct (truthy userId); simpl; [| by do 2 eexists].
  destruct (preference_of env w userId); [by do 2 eexists | ..];
    destruct (tokens_fault env) as [[msg | msg] |]; try (by do 2 eexists);
    destruct (length _ =? 0)%nat; by do 2 eexists.
Qed.

(** X11.  Whatever fails, [sendNotificationToUser] returns a result
    object (it never throws), leaves accounts, device tokens and the alert
    log untouched and writes at most one row to [notifications].  A
    result with [success: true] carries counts with
    [sent + failed = total], [total] being the number of the user's device
    tokens (at least one), and exactly [sent] pushes were accepted by the
    gateway; with a result that is not a success no push went out. *)
Theorem sendNotificationToUser_accounting env userId n w :
  ∃ r w',
    sendNotificationToUser env userId n w = (Returned r, w')
    ∧ auth_users (store w') = auth_users (store w)
    ∧ fcm_tokens (store w') = fcm_tokens (store w)
    ∧ weather_alerts_sent (store w') = weather_alerts_sent (store w)
    ∧ (∃ rows, notifications (store w') = notifications (store w) ++ rows
               ∧ length rows ≤ 1)
    ∧ if success r
      then ∃ s f new,
             sent r = Some s ∧ failed r = Some f ∧ total r = Some (s + f)
             ∧ 0 < s + f ∧ s + f = length (tokens_of userId (store w))
             ∧ pushes w' = pushes w ++ new ∧ length new = s
      else pushes w' = pushes w.
Proof.
  rewrite sendNotificationToUser_spec.
  destruct (saved_frame env userId n w) as (Hp & Hau & Htok & Hal & Hrows).
  destruct (truthy userId); simpl.
  2: { do 2 eexists. split_and!; try done.
       exists []. split; [by rewrite app_nil_r | simpl; lia]. }
  destruct (preference_of env w userId).
  1: { do 2 eexists. split_and!; try done.
       exists []. split; [by rewrite app_nil_r | simpl; lia]. }
  all: destruct (tokens_fault env) as [[msg | msg] |];
    try (do 2 eexists; split_and!; done).
  all: destruct (length (map token (tokens_of userId (store w))) =? 0)%nat eqn:Hlen;
    try (do 2 eexists; split_and!; done).
  all: do 2 eexists; split_and!; try done; simpl.
  all: apply Nat.eqb_neq in Hlen; rewrite length_map in *.
  all: assert (Hle : length (fan_out_pushes env n (map token (tokens_of userId (store w))))
                     ≤ length (tokens_of userId (store w)))
         by (unfold fan_out_pushes; rewrite length_map;
             etrans; [apply length_filter | by rewrite length_map]).
  all: do 3 eexists; split_and!; try done; try (f_equal; lia); lia.
Qed.

(** X12.  Once the preference check lets the call through and the token
    query answers, the fan-out of [sendNotificationToUser] adds to the
    push log one push for each device token of the user that is not
    empty and that the gateway accepts (given that a project id is
    configured), in the order of the tokens and after everything logged
    before; every one of them carries the title and body of the
    notification and links to [data.url], or to ["/"] without one. *)
Theorem fan_out_reaches_accepted_tokens env userId n w :
  truthy userId = true →
  preference_of env w userId ≠ Disabled →
  tokens_fault env = None →
  let new := fan_out_pushes env n (map token (tokens_of userId (store w))) in
  pushes (sendNotificationToUser env userId n w).2 = pushes w ++ new
  ∧ Forall
      (fun p =>
         (∃ t, t ∈ tokens_of userId (store w) ∧ token t = push_token p)
         ∧ truthy (push_token p) = true
         ∧ fcm_accepts env (push_token p) = true
         ∧ push_title p = title n ∧ push_body p = body n
         ∧ push_link p = link_of (ndata n))
      new
  ∧ ∀ t, t ∈ tokens_of userId (store w) →
         truthy (service_projectId env) = true →
         truthy (token t) = true → fcm_accepts env (token t) = true →
         ∃ p, p ∈ new ∧ push_token p = token t.
Proof.
  intros Hu Hpref Hfault new.
  rewrite sendNotificationToUser_spec, Hu, Hfault. simpl.
  split_and!.
  - destruct (saved_frame env userId n w) as (Hp & _).
    destruct (preference_of env w userId); [done | ..];
      destruct (length _ =? 0)%nat eqn:Hlen; simpl; try done;
      apply Nat.eqb_eq, nil_length_inv in Hlen; subst new; rewrite Hlen, Hp;
      by rewrite app_nil_r.
  - subst new. unfold fan_out_pushes. apply Forall_forall. intros p Hp.
    apply list_elem_of_fmap in Hp as (t & -> & Ht).
    apply list_elem_of_filter in Ht as [Hok Ht].
    apply list_elem_of_fmap in Ht as (row & -> & Hrow).
    unfold push_ok in Hok. apply andb_true_iff in Hok as [[_ ?]%andb_true_iff ?].
    simpl. split_and!; eauto.
  - intros t Ht Hpid Htok Hacc. exists (mkPush (token t) (title n) (body n) (link_of (ndata n))).
    split; [| done]. subst new. unfold fan_out_pushes.
    apply list_elem_of_fmap. exists (token t). split; [done |].
    apply list_elem_of_filter. split.
    + unfold push_ok, js_or.
      rewrite Htok, Hacc. rewrite Hpid. by rewrite Hpid.
    + apply list_elem_of_fmap. eauto.
Qed.

Lemma fan_out_reaches_accepted_tokens_witness :
  pushes (sendNotificationToUser half_gateway farmer storm_note sample_world).2
  = [mkPush (VStr "tokA") (VStr "Storm warning") (VStr "Strong wind tonight")
       (VStr "/")].
Proof.
  destruct (fan_out_reaches_accepted_tokens half_gateway farmer storm_note
              sample_world) as [Hlog _].
  - reflexivity.
  - vm_compute. discriminate.
  - reflexivity.
  - exact Hlog.
Defined.



Lemma counts_partition (rs : list (outcome NotifyResult)) :
  length (filter (fun r => counts_success r = true) rs)
  + length (filter (fun r => counts_failed r = true) rs) = length rs.
Proof.
  induction rs as [| r rs IH]; [done |].
  rewrite !filter_cons.
  destruct r as [v | msg]; simpl; [destruct (success v) |]; simpl; lia.
Qed.

(** X14.  [sendNotificationToUsers] always returns its tally, and the
    tally is a partition: every user id of the list is counted once,
    as a success or as a failure, so [success + failed = total] and
    [total] is the length of the list. *)
Theorem sendNotificationToUsers_tally env userIds n w :
  ∃ t w',
    sendNotificationToUsers env userIds n w = (Returned t, w')
    ∧ tally_success t + tally_failed t = tally_total t
    ∧ tally_total t = length userIds.
Proof.
  unfold sendNotificationToUsers, allSettled. async_unfold.
  pose proof (settle_all_length
    (map (fun userId => sendNotificationToUser env userId n) userIds) w) as Hlen.
  destruct (settle_all _ w) as [rs w']. simpl in Hlen. rewrite length_map in Hlen.
  do 2 eexists. split; [done |]. simpl. split; [| done].
  by rewrite counts_partition.
Qed.

Lemma canSendWeatherAlert_spec env userId w :
  ∃ c, canSendWeatherAlert env userId w = (Returned c, w)
       ∧ canSend c = gate_open env userId w.
Proof.
  unfold canSendWeatherAlert, gate_open, sent_today. async_unfold.
  destruct (alerts_read_fault env) as [[msg | msg] |]; simpl; by eexists.
Qed.

(** [sendWeatherAlert], path by path: the gate, the notification, the
    record of the alert. *)
Lemma sendWeatherAlert_spec env userId alert w :
  ∃ r w1,
    sendNotificationToUser env userId (weather_notification alert) w
    = (Returned r, w1)
    ∧ weather_alerts_sent (store w1) = weather_alerts_sent (store w)
    ∧ sendWeatherAlert env userId alert w
      = if gate_open env userId w
        then
          if success r
          then
            (Returned r,
             match alerts_write_fault env with
             | None =>
                 mkWorld
                   (mkStore (auth_users (store w1)) (notifications (store w1))
                      (fcm_tokens (store w1))
                      (weather_alerts_sent (store w1)
                       ++ [alert_row env userId alert]))
                   (pushes w1)
             | Some _ => w1
             end)
          else (Returned r, w1)
        else (Returned limit_result, w).
Proof.
  destruct (sendNotificationToUser_returns env userId
              (weather_notification alert) w) as (r & w1 & Hsend & Hal).
  exists r, w1. split_and!; [done | done |].
  destruct (canSendWeatherAlert_spec env userId w) as (c & Hc & Hopen).
  unfold sendWeatherAlert, recordWeatherAlertSent, insert_alert, alert_row.
  unfold try_catch at 1. unfold mbind at 1, async_bind at 1. rewrite Hc, Hopen.
  destruct (gate_open env userId w); [| done]. cbn [negb].
  unfold mbind at 1, async_bind at 1. rewrite Hsend.
  destruct (success r); [| done].
  async_unfold. by destruct (alerts_write_fault env) as [[msg | msg] |].
Qed.

(** X15.  With three or more alerts of the user logged since local
    midnight and a store that answers the count, [sendWeatherAlert]
    returns the "Daily limit reached" result and does nothing else: no row
    in [notifications], no push, no row in the alert log. *)
Theorem limit_reached_sends_nothing env userId alert w :
  alerts_read_fault env = None →
  3 ≤ sent_today env userId w →
  sendWeatherAlert env userId alert w = (Returned limit_result, w).
Proof.
  intros Hfault Hsent.
  destruct (sendWeatherAlert_spec env userId alert w) as (r & w1 & _ & _ & ->).
  unfold gate_open. rewrite Hfault.
  by rewrite (proj2 (Nat.ltb_ge _ _) Hsent).
Qed.

Lemma limit_reached_sends_nothing_witness :
  sendWeatherAlert dead_gateway farmer storm third_alert_world
  = (Returned limit_result, third_alert_world).
Proof.
  apply (limit_reached_sends_nothing dead_gateway farmer storm third_alert_world).
  - reflexivity.
  - vm_compute. lia.
Defined.

(** X16.  [sendWeatherAlert] always returns a result, and its effect on
    the alert log is: one row for the alert is appended when the
    notification call reported success and the insert of the row
    succeeded; in every other case (limit reached, notification not a
    success, insert failed) the log is as before.  A failed insert does
    not change the result that is returned. *)
Theorem alert_logged_iff_delivered env userId alert w :
  ∃ r w',
    sendWeatherAlert env userId alert w = (Returned r, w')
    ∧ weather_alerts_sent (store w')
      = weather_alerts_sent (store w)
        ++ match alerts_write_fault env with
           | None => if success r then [alert_row env userId alert] else []
           | Some _ => []
           end.
Proof.
  destruct (sendWeatherAlert_spec env userId alert w) as (r & w1 & _ & Hal & ->).
  destruct (gate_open env userId w).
  - destruct (success r) eqn:Hr.
    + exists r. eexists. split; [done |]. rewrite Hr.
      destruct (alerts_write_fault env); simpl; rewrite Hal; [| done].
      by rewrite app_nil_r.
    + exists r, w1. split; [done |]. rewrite Hr, Hal.
      destruct (alerts_write_fault env); by rewrite app_nil_r.
  - exists limit_result, w. split; [done |]. simpl.
    destruct (alerts_write_fault env); by rewrite app_nil_r.
Qed.

Lemma sent_today_step env userId alert w :
  alerts_read_fault env = None →
  sent_today env userId (sendWeatherAlert env userId alert w).2
  ≤ max 3 (sent_today env userId w).
Proof.
  intros Hfault.
  destruct (sendWeatherAlert_spec env userId alert w) as (r & w1 & _ & Hal & ->).
  unfold gate_open. rewrite Hfault.
  destruct (Nat.ltb_spec (sent_today env userId w) 3) as [Hlt | Hge]; [| simpl; lia].
  assert (H1 : sent_today env userId w1 = sent_today env userId w)
    by (unfold sent_today, alerts_since; by rewrite Hal).
  destruct (success r); simpl; [| lia].
  destruct (alerts_write_fault env); simpl; [lia |].
  unfold sent_today, alerts_since in *. simpl. rewrite Hal, filter_app, length_app.
  pose proof (length_filter
    (fun a => sql_eq (alert_user_id a) userId
              && (startOfLocalDay env <=? sent_at a)%Z = true)
    [alert_row env userId alert]) as Hone.
  simpl in Hone. lia.
Qed.

(** X17.  The daily cap is kept by the gate: as long as the store answers
    the count, no series of [sendWeatherAlert] calls for a user takes the
    number of the user's alerts logged since local midnight above 3 (or
    above what it was, if it already was above 3). *)
Theorem daily_cap_kept env userId alerts w :
  alerts_read_fault env = None →
  sent_today env userId (sendWeatherAlerts env userId alerts w)
  ≤ max 3 (sent_today env userId w).
Proof.
  intros Hfault. revert w. induction alerts as [| alert alerts IH]; intros w.
  - simpl. lia.
  - simpl. etrans; [apply IH |].
    pose proof (sent_today_step env userId alert w Hfault). lia.
Qed.

Lemma daily_cap_kept_witness :
  sent_today half_gateway farmer
    (sendWeatherAlerts half_gateway farmer [storm; storm; storm] sample_world)
  ≤ max 3 (sent_today half_gateway farmer sample_world).
Proof.
  apply (daily_cap_kept half_gateway farmer [storm; storm; storm] sample_world).
  reflexivity.
Defined.

(** ** Properties of the text of a chat push *)

Lemma string_length_app (s1 s2 : string) :
  String.length (s1 +:+ s2) = String.length s1 + String.length s2.
Proof. induction s1 as [| c s1 IH]; simpl; [done | by rewrite IH]. Qed.

Lemma substring_prefix n (s : string) :
  ∃ rest, s = String.substring 0 n s +:+ rest
          ∧ String.length (String.substring 0 n s) = min n (String.length s).
Proof.
  revert s. induction n as [| n IH]; intros s.
  - exists s. by destruct s.
  - destruct s as [| c s]; [by exists "" |].
    destruct (IH s) as (rest & Hrest & Hlen).
    exists rest. split.
    + change (String c s = String c (String.substring 0 n s +:+ rest)).
      by f_equal.
    + simpl. by rewrite Hlen.
Qed.

(** X18.  The body of a chat push is the message itself when it has at
    most 100 characters, and otherwise its first 100 characters followed
    by ["..."]; it never has more than 103 characters. *)
Theorem notificationBody_bound content :
  String.length (notificationBody content) ≤ 103
  ∧ (String.length content ≤ 100 → notificationBody content = content)
  ∧ (100 < String.length content →
     ∃ head rest, content = head +:+ rest ∧ String.length head = 100
                  ∧ rest ≠ ""
                  ∧ notificationBody content = head +:+ "...").
Proof.
  unfold notificationBody.
  destruct (substring_prefix 100 content) as (rest & Hrest & Hlen).
  destruct (Nat.ltb_spec 100 (String.length content)) as [Hlong | Hshort].
  - split_and!; [| lia |].
    + rewrite string_length_app, Hlen. cbn [String.length]. lia.
    + intros _. exists (String.substring 0 100 content), rest.
      split_and!; [done | lia | | done].
      intros ->. rewrite Hrest, string_length_app, Hlen in Hlong.
      cbn [String.length] in Hlong. lia.
  - split_and!; [lia | done | lia].
Qed.





Lemma chat_notification_link senderInfo content product_id product
    conversation_id sender_id message_id :
  link_of (ndata (chat_notification senderInfo content product_id product
                    conversation_id sender_id message_id))
  = VStr ("/chats?conversation=" +:+ js_String conversation_id).
Proof.
  unfold chat_notification, link_of. simpl.
  rewrite !lookup_insert_ne by done. by rewrite lookup_insert_eq.
Qed.

(** X20.  What a chat push says and where it leads, once the call is let
    through and the token query answers: every push that goes out for the
    message links to the page of its conversation and carries the title
    and body composed for it.  With a product id on the conversation and
    the product found, these speak of an inquiry and the message text is
    not part of the push; with a product id whose product is not found
    the push is typed ["product_inquiry"] although title and body are
    those of a plain message; without a product id it is typed
    ["chat_message"]. *)
Theorem chat_push_shape env userId w senderInfo content product_id product
    conversation_id sender_id message_id :
  truthy userId = true →
  preference_of env w userId ≠ Disabled →
  tokens_fault env = None →
  let n := chat_notification senderInfo content product_id product
             conversation_id sender_id message_id in
  let plain_title := VStr ("New message from " +:+ senderName senderInfo) in
  (∃ new,
     pushes (sendNotificationToUser env userId n w).2 = pushes w ++ new
     ∧ Forall
         (fun p =>
            push_link p
              = VStr ("/chats?conversation=" +:+ js_String conversation_id)
            ∧ push_title p = title n ∧ push_body p = body n)
         new)
  ∧ match truthy product_id, product with
    | true, Some t =>
        ndata n !! "type" = Some (VStr "product_inquiry")
        ∧ title n = VStr ("New inquiry about " +:+ js_String t)
        ∧ body n = VStr (senderName senderInfo +:+ " sent a message")
    | true, None =>
        ndata n !! "type" = Some (VStr "product_inquiry")
        ∧ title n = plain_title ∧ body n = VStr (notificationBody content)
    | false, _ =>
        ndata n !! "type" = Some (VStr "chat_message")
        ∧ title n = plain_title ∧ body n = VStr (notificationBody content)
    end.
Proof.
  intros Hu Hpref Hfault n plain_title. split.
  - exists (fan_out_pushes env n (map token (tokens_of userId (store w)))).
    split.
    + rewrite sendNotificationToUser_spec, Hu, Hfault. simpl.
      destruct (saved_frame env userId n w) as (Hp & _).
      destruct (preference_of env w userId); [done | ..];
        destruct (length _ =? 0)%nat eqn:Hlen; simpl; try done;
        apply Nat.eqb_eq, nil_length_inv in Hlen; rewrite Hlen, Hp;
        by rewrite app_nil_r.
    + unfold fan_out_pushes. apply Forall_forall. intros p Hp.
      apply list_elem_of_fmap in Hp as (t & -> & _).
      cbn [push_link push_title push_body]. split; [| done].
      subst n. apply chat_notification_link.
  - subst n plain_title. unfold chat_notification. simpl.
    destruct (truthy product_id); [destruct product |];
      by rewrite lookup_insert_eq.
Qed.

Lemma chat_push_shape_witness :
  let n := chat_notification (Some (mkSenderInfo (VStr "Ann") VNull)) "Hello"
             (VStr "p1") None (VStr "c1") (VStr "u2") (VStr "m1") in
  (∃ new,
     pushes (sendNotificationToUser half_gateway farmer n sample_world).2
     = pushes sample_world ++ new
     ∧ Forall
         (fun p =>
            push_link p = VStr ("/chats?conversation=" +:+ js_String (VStr "c1"))
            ∧ push_title p = title n ∧ push_body p = body n)
         new)
  ∧ ndata n !! "type" = Some (VStr "product_inquiry")
  ∧ title n = VStr ("New message from " +:+ senderName (Some (mkSenderInfo (VStr "Ann") VNull)))
  ∧ body n = VStr (notificationBody "Hello").
Proof.
  apply (chat_push_shape half_gateway farmer sample_world
           (Some (mkSenderInfo (VStr "Ann") VNull)) "Hello" (VStr "p1") None
           (VStr "c1") (VStr "u2") (VStr "m1")).
  - reflexivity.
  - vm_compute. discriminate.
  - reflexivity.
Defined.

(** ** Properties of the conversation handlers *)

Lemma pair_filter_sym u1 u2 r : pair_filter u1 u2 r = pair_filter u2 u1 r.
Proof.
  unfold pair_filter.
  rewrite (andb_comm (sql_eq (conv_user1_id r) (VStr (js_String u2)))).
  rewrite (andb_comm (sql_eq (conv_user1_id r) (VStr (js_String u1)))).
  apply orb_comm.
Qed.

Lemma find_filter_sym ver u1 u2 r :
  find_filter ver u1 u2 r = find_filter ver u2 u1 r.
Proof. unfold find_filter. by rewrite pair_filter_sym. Qed.

Lemma filter_bool_ext {A} (p q : A → bool) (l : list A) :
  (∀ x, x ∈ l → p x = q x) →
  filter (fun x => p x = true) l = filter (fun x => q x = true) l.
Proof.
  induction l as [| x l IH]; intros H; [done |].
  rewrite !filter_cons.
  rewrite IH by (intros y Hy; apply H; by apply list_elem_of_further).
  by rewrite (H x (list_elem_of_here _ _)).
Qed.

Lemma filter_map_bool {A} (p : A → bool) (g : A → A) (l : list A) :
  filter (fun x => p x = true) (map g l)
  = map g (filter (fun x => p (g x) = true) l).
Proof.
  induction l as [| x l IH]; [done |].
  simpl. rewrite !filter_cons, IH. by destruct (decide (p (g x) = true)).
Qed.

Section Pick.
Variable pick : list ConversationRow → option ConversationRow.
Hypothesis pick_in : ∀ l r, pick l = Some r → r ∈ l.
Hypothesis pick_some : ∀ l, pick l = None → l = [].

Lemma pick_nil : pick [] = None.
Proof.
  destruct (pick []) as [r |] eqn:Hr; [| done].
  by apply pick_in, not_elem_of_nil in Hr.
Qed.

Lemma pick_singleton r : pick [r] = Some r.
Proof.
  destruct (pick [r]) as [r' |] eqn:Hr.
  - by apply pick_in, list_elem_of_singleton in Hr as ->.
  - by apply pick_some in Hr.
Qed.

End Pick.

Lemma created_row_matches ver a b p new_id new_last :
  find_filter ver (VStr b) (VStr a)
    (mkConversationRow new_id (VStr a) (VStr b) p new_last None) = true
  ∧ find_filter ver (VStr a) (VStr b)
      (mkConversationRow new_id (VStr a) (VStr b) p new_last None) = true.
Proof.
  unfold find_filter, pair_filter, sql_eq. simpl.
  rewrite !(bool_decide_eq_true_2 (VStr a = VStr a)) by done.
  rewrite !(bool_decide_eq_true_2 (VStr b = VStr b)) by done.
  simpl. rewrite ?orb_true_r. by destruct ver.
Qed.

(** X21.  [findOrCreateConversation] does not depend on the order of the
    two users: when no conversation of the pair is found and the store
    answers, the call for (a, b) creates one and acknowledges its id, and
    a following call for (b, a) with the same product acknowledges that
    same id and creates nothing.  ([pick] is the store's choice among the
    rows that match.) *)
Theorem find_after_create ver pick new_id new_last new_id' new_last' a b p convs :
  (∀ l r, pick l = Some r → r ∈ l) →
  (∀ l, pick l = None → l = []) →
  filter (fun r => find_filter ver (VStr a) (VStr b) r = true) convs = [] →
  let r1 := findOrCreateConversation ver pick no_find_faults new_id new_last
              (VStr a) (VStr b) p convs in
  let r2 := findOrCreateConversation ver pick no_find_faults new_id' new_last'
              (VStr b) (VStr a) p r1.1 in
  r1.2 = AckConversation new_id
  ∧ length r1.1 = S (length convs)
  ∧ r2 = (r1.1, AckConversation new_id).
Proof.
  intros Hin Hsome Hnone r1 r2.
  assert (H1 : r1 = (convs ++ [mkConversationRow new_id (VStr a) (VStr b)
                                 (js_or p VNull) new_last None],
                     AckConversation new_id)).
  { subst r1. unfold findOrCreateConversation. simpl.
    by rewrite Hnone, (pick_nil pick Hin). }
  subst r2. rewrite H1. cbn [fst snd]. split_and!; [done | | ].
  - rewrite length_app. simpl. lia.
  - unfold findOrCreateConversation. cbn [find_fault no_find_faults].
    rewrite filter_app.
    rewrite (filter_bool_ext (find_filter ver (VStr b) (VStr a))
               (find_filter ver (VStr a) (VStr b)) convs)
      by (intros; apply find_filter_sym).
    rewrite Hnone, filter_cons.
    rewrite decide_True by apply created_row_matches.
    cbn [app filter]. rewrite filter_nil, (pick_singleton pick Hin Hsome).
    cbn [conv_product_id conv_id]. unfold js_or, strict_eq.
    destruct (truthy p); [| done].
    by rewrite bool_decide_eq_true_2.
Qed.

Lemma find_after_create_witness :
  let r1 := findOrCreateConversation Newer head no_find_faults (VStr "c7") None
              (VStr "u1") (VStr "u2") VUndefined [] in
  let r2 := findOrCreateConversation Newer head no_find_faults (VStr "c8") None
              (VStr "u2") (VStr "u1") VUndefined r1.1 in
  r1.2 = AckConversation (VStr "c7")
  ∧ length r1.1 = 1
  ∧ r2 = (r1.1, AckConversation (VStr "c7")).
Proof.
  apply (find_after_create Newer head (VStr "c7") None (VStr "c8") None
           "u1" "u2" VUndefined []).
  - intros l r Hr. destruct l; [done |]. injection Hr as ->. apply list_elem_of_here.
  - intros l Hl. by destruct l.
  - reflexivity.
Defined.

Lemma live_after_set_product u1 u2 id p r :
  pair_filter u1 u2 (set_product id p r)
    && bool_decide (conv_deleted_at (set_product id p r) = None)
  = pair_filter u1 u2 r && bool_decide (conv_deleted_at r = None).
Proof. unfold set_product. by destruct (sql_eq (conv_id r) id). Qed.

(** X22.  Sequential calls never leave a pair of users with a second
    live conversation: whatever the store does, after
    [findOrCreateConversation] for (a, b) the number of conversations of
    the pair that are not soft-deleted is what it was, or 1 if there was
    none.  This holds on both servers. *)
Theorem at_most_one_live_conversation ver pick f new_id new_last a b p convs :
  (∀ l r, pick l = Some r → r ∈ l) →
  (∀ l, pick l = None → l = []) →
  live_pair_count (VStr a) (VStr b)
    (findOrCreateConversation ver pick f new_id new_last (VStr a) (VStr b) p
       convs).1
  ≤ max 1 (live_pair_count (VStr a) (VStr b) convs).
Proof.
  intros Hin Hsome. unfold findOrCreateConversation.
  destruct (find_fault f); [simpl; lia |].
  destruct (pick _) as [existing |] eqn:Hpick.
  - destruct (truthy p && _); [| simpl; lia].
    destruct (product_fault f) as [[msg | msg] |]; try (simpl; lia).
    cbn [fst]. unfold live_pair_count.
    rewrite (filter_map_bool
      (fun r => pair_filter (VStr a) (VStr b) r
                && bool_decide (conv_deleted_at r = None))).
    rewrite length_map.
    rewrite (filter_bool_ext _
      (fun r => pair_filter (VStr a) (VStr b) r
                && bool_decide (conv_deleted_at r = None)))
      by (intros; apply live_after_set_product).
    lia.
  - apply Hsome in Hpick.
    destruct (create_fault f); [simpl; lia |].
    cbn [fst]. unfold live_pair_count. rewrite filter_app, length_app.
    assert (Hzero : filter
      (fun r => pair_filter (VStr a) (VStr b) r
                && bool_decide (conv_deleted_at r = None) = true) convs = []).
    { apply elem_of_nil_inv. intros x [Hx Hconv]%list_elem_of_filter.
      apply andb_true_iff in Hx as [Hpair Hlive].
      assert (Hfind : x ∈ filter
        (fun r => find_filter ver (VStr a) (VStr b) r = true) convs).
      { apply list_elem_of_filter. split; [| done].
        unfold find_filter. rewrite Hpair. by destruct ver. }
      rewrite Hpick in Hfind. by apply not_elem_of_nil in Hfind. }
    rewrite Hzero. simpl.
    pose proof (length_filter
      (fun r => pair_filter (VStr a) (VStr b) r
                && bool_decide (conv_deleted_at r = None) = true)
      [mkConversationRow new_id (VStr a) (VStr b) (js_or p VNull) new_last None])
      as Hone.
    simpl in Hone. lia.
Qed.

Lemma at_most_one_live_conversation_witness :
  live_pair_count (VStr "u1") (VStr "u2")
    (findOrCreateConversation Newer head no_find_faults (VStr "c7") None
       (VStr "u1") (VStr "u2") VUndefined []).1
  ≤ max 1 (live_pair_count (VStr "u1") (VStr "u2") []).
Proof.
  apply (at_most_one_live_conversation Newer head no_find_faults (VStr "c7")
           None "u1" "u2" VUndefined []).
  - intros l r Hr. destruct l; [done |]. injection Hr as ->. apply list_elem_of_here.
  - intros l Hl. by destruct l.
Defined.

Lemma select_convo_row c convs r :
  select_convo c convs = Row r →
  filter (fun x => sql_eq (conv_id x) c = true) convs = [r]
  ∧ sql_eq (conv_id r) c = true.
Proof.
  unfold select_convo. intros H.
  destruct (filter _ convs) as [| x [| y l]] eqn:Hf; try done.
  injection H as ->. split; [done |].
  assert (Hin : r ∈ filter (fun x => sql_eq (conv_id x) c = true) convs)
    by (rewrite Hf; apply list_elem_of_here).
  by apply list_elem_of_filter in Hin as [? _].
Qed.

Lemma soft_delete_conversation_filter now c convs r :
  select_convo c convs = Row r →
  ∃ r', select_convo c (soft_delete_conversation now c convs) = Row r'
        ∧ conv_id r' = conv_id r ∧ conv_deleted_at r' = Some now.
Proof.
  intros [Hf Hr]%select_convo_row.
  unfold select_convo, soft_delete_conversation.
  rewrite (filter_map_bool (fun x => sql_eq (conv_id x) c)).
  rewrite (filter_bool_ext _ (fun x => sql_eq (conv_id x) c))
    by (intros x _; by destruct (sql_eq (conv_id x) c) eqn:Hx).
  rewrite Hf. simpl. rewrite Hr. by eexists.
Qed.

Lemma pair_filter_soft_deleted now c u1 u2 x :
  pair_filter u1 u2
    (if sql_eq (conv_id x) c
     then mkConversationRow (conv_id x) (conv_user1_id x) (conv_user2_id x)
            (conv_product_id x) (conv_last_message_at x) (Some now)
     else x)
  = pair_filter u1 u2 x.
Proof. by destruct (sql_eq (conv_id x) c). Qed.

Lemma pair_filter_participant a b r :
  pair_filter (VStr a) (VStr b) r = true →
  conv_user1_id r = VStr a ∨ conv_user2_id r = VStr a.
Proof.
  unfold pair_filter, sql_eq. simpl.
  intros [[H _]%andb_true_iff | [_ H]%andb_true_iff]%orb_true_iff;
    apply andb_true_iff in H as [_ H%bool_decide_eq_true]; auto.
Qed.

Lemma deleteConversation_by_participant st now c u r convs ms :
  truthy c = true → u ≠ "" →
  select_convo c convs = Row r →
  conv_user1_id r = VStr u ∨ conv_user2_id r = VStr u →
  ∀ f, convo_fault f = None → conversation_update_fault f = None →
  deleteConversation st f now c (VStr u) convs ms
  = match messages_update_fault f with
    | Some _ =>
        mkAdminResult (soft_delete_conversation now c convs) ms []
          (AdminError "Internal error")
    | None =>
        mkAdminResult (soft_delete_conversation now c convs)
          (soft_delete_messages now c ms)
          (admin_emits st c (conv_user1_id r) (conv_user2_id r)
             (ConversationDeleted c (VStr u)))
          (AdminSuccess None)
    end.
Proof.
  intros Hc Hu Hsel Hpart f Hf1 Hf2. unfold deleteConversation.
  rewrite Hc, Hf1, Hsel, Hf2.
  assert (Htruthy : truthy (VStr u) = true).
  { simpl. by destruct (String.eqb_spec u ""). }
  rewrite Htruthy. simpl.
  rewrite (bool_decide_eq_false_2 (Some u = Some "")) by congruence. simpl.
  assert (Hauth : negb (bool_decide (Some u = string_or_null (conv_user1_id r)))
                  && negb (bool_decide (Some u = string_or_null (conv_user2_id r)))
                  = false).
  { destruct Hpart as [-> | ->]; simpl.
    - by rewrite bool_decide_eq_true_2.
    - rewrite (bool_decide_eq_true_2 (Some u = Some u)) by done.
      by rewrite andb_false_r. }
  by rewrite Hauth.
Qed.

(** X23.  Where the two servers part: after a participant has deleted
    the only conversation of a pair, [findOrCreateConversation] of the
    older server finds the soft-deleted conversation again and
    acknowledges its id, while the newer server, which looks for
    conversations that are not deleted, creates a new one. *)
Theorem deleted_conversation_found_or_replaced st pick now new_id new_last
    a b r convs ms :
  (∀ l r, pick l = Some r → r ∈ l) →
  (∀ l, pick l = None → l = []) →
  a ≠ "" → truthy (conv_id r) = true →
  filter (fun x => pair_filter (VStr a) (VStr b) x = true) convs = [r] →
  select_convo (conv_id r) convs = Row r →
  let d := deleteConversation st no_admin_faults now (conv_id r) (VStr a)
             convs ms in
  ar_ack d = AdminSuccess None
  ∧ (findOrCreateConversation Older pick no_find_faults new_id new_last
       (VStr a) (VStr b) VUndefined (ar_conversations d)).2
    = AckConversation (conv_id r)
  ∧ (findOrCreateConversation Newer pick no_find_faults new_id new_last
       (VStr a) (VStr b) VUndefined (ar_conversations d)).2
    = AckConversation new_id.
Proof.
  intros Hin Hsome Ha Hid Hpair Hsel d.
  assert (Hr : pair_filter (VStr a) (VStr b) r = true).
  { assert (Hmem : r ∈ filter (fun x => pair_filter (VStr a) (VStr b) x = true) convs)
      by (rewrite Hpair; apply list_elem_of_here).
    by apply list_elem_of_filter in Hmem as [? _]. }
  assert (Hd : d = mkAdminResult
    (soft_delete_conversation now (conv_id r) convs)
    (soft_delete_messages now (conv_id r) ms)
    (admin_emits st (conv_id r) (conv_user1_id r) (conv_user2_id r)
       (ConversationDeleted (conv_id r) (VStr a)))
    (AdminSuccess None)).
  { subst d.
    by rewrite (deleteConversation_by_participant st now (conv_id r) a r convs ms
                  Hid Ha Hsel (pair_filter_participant a b r Hr)
                  no_admin_faults eq_refl eq_refl). }
  rewrite Hd. cbn [ar_ack ar_conversations].
  destruct (select_convo_row _ _ _ Hsel) as [_ Hself].
  split_and!; [done | |].
  - unfold findOrCreateConversation, soft_delete_conversation.
    cbn [find_fault no_find_faults].
    rewrite (filter_map_bool (find_filter Older (VStr a) (VStr b))).
    rewrite (filter_bool_ext _ (pair_filter (VStr a) (VStr b))).
    2: { intros x _. unfold find_filter.
         by rewrite pair_filter_soft_deleted, andb_true_r. }
    rewrite Hpair. cbn [map]. rewrite (pick_singleton pick Hin Hsome).
    rewrite Hself. done.
  - unfold findOrCreateConversation, soft_delete_conversation.
    cbn [find_fault no_find_faults create_fault].
    rewrite (filter_map_bool (find_filter Newer (VStr a) (VStr b))).
    assert (Hnone : filter
      (fun x => find_filter Newer (VStr a) (VStr b)
         (if sql_eq (conv_id x) (conv_id r)
          then mkConversationRow (conv_id x) (conv_user1_id x) (conv_user2_id x)
                 (conv_product_id x) (conv_last_message_at x) (Some now)
          else x) = true) convs = []).
    { apply elem_of_nil_inv. intros x [Hx Hconv]%list_elem_of_filter.
      unfold find_filter in Hx. rewrite pair_filter_soft_deleted in Hx.
      apply andb_true_iff in Hx as [Hpx Hlive].
      assert (Hmem : x ∈ filter (fun x => pair_filter (VStr a) (VStr b) x = true) convs)
        by (by apply list_elem_of_filter).
      rewrite Hpair in Hmem. apply list_elem_of_singleton in Hmem as ->.
      by rewrite Hself in Hlive. }
    rewrite Hnone. cbn [map]. by rewrite (pick_nil pick Hin).
Qed.

Lemma head_in {A} (l : list A) r : head l = Some r → r ∈ l.
Proof. destruct l; [done |]. intros [= ->]. apply list_elem_of_here. Qed.

Lemma head_some {A} (l : list A) : head l = None → l = [].
Proof. by destruct l. Qed.

Lemma deleted_conversation_found_or_replaced_witness :
  let d := deleteConversation initial no_admin_faults 9 (VStr "c1") (VStr "u1")
             [c1_conversation] [hello_row] in
  ar_ack d = AdminSuccess None
  ∧ (findOrCreateConversation Older head no_find_faults (VStr "c9") None
       (VStr "u1") (VStr "u2") VUndefined (ar_conversations d)).2
    = AckConversation (VStr "c1")
  ∧ (findOrCreateConversation Newer head no_find_faults (VStr "c9") None
       (VStr "u1") (VStr "u2") VUndefined (ar_conversations d)).2
    = AckConversation (VStr "c9").
Proof.
  apply (deleted_conversation_found_or_replaced initial head 9 (VStr "c9") None
           "u1" "u2" c1_conversation [c1_conversation] [hello_row]).
  - apply head_in.
  - apply head_some.
  - discriminate.
  - reflexivity.
  - reflexivity.
  - reflexivity.
Defined.



Lemma messages_of_soft_deleted now c ms :
  messages_of c (soft_delete_messages now c ms)
  = map (set_deleted_at now) (messages_of c ms).
Proof.
  unfold messages_of, soft_delete_messages.
  rewrite (filter_map_bool (fun m => sql_eq (msg_conversation_id m) c)).
  rewrite (filter_bool_ext _ (fun m => sql_eq (msg_conversation_id m) c))
    by (intros m _; by destruct (sql_eq (msg_conversation_id m) c) eqn:Hm).
  induction ms as [| m ms IH]; [done |].
  rewrite filter_cons. destruct (decide _) as [Hm | Hm]; simpl.
  - rewrite Hm. by rewrite IH.
  - destruct (sql_eq (msg_conversation_id m) c); [done |]. by rewrite IH.
Qed.

(** X25.  A participant clears a conversation (the store answers): every
    message of the conversation gets [deleted_at = now], also those that
    were cleared before, and nothing else of it changes; messages of other
    conversations and the [conversations] table stay as they are.  The
    count that is acknowledged and broadcast is the number of messages of
    the conversation, cleared before or not, so clearing again reports the
    same count. *)
Theorem clearConversation_effect st f now c uid r convs ms :
  truthy c = true → truthy uid = true →
  convo_fault f = None → messages_update_fault f = None →
  select_convo c convs = Row r →
  uid = conv_user1_id r ∨ uid = conv_user2_id r →
  let res := clearConversation st f now c uid convs ms in
  let count := length (messages_of c ms) in
  ar_conversations res = convs
  ∧ ar_ack res = AdminSuccess (Some count)
  ∧ head (ar_emits res) = Some (ToRoom c, ConversationCleared c uid count)
  ∧ Forall2
      (fun m m' =>
         if sql_eq (msg_conversation_id m) c then m' = set_deleted_at now m
         else m' = m)
      ms (ar_messages res)
  ∧ length (messages_of c (ar_messages res)) = count.
Proof.
  intros Hc Hu Hf1 Hf2 Hsel Hpart res count.
  assert (Hres : res = mkAdminResult convs (soft_delete_messages now c ms)
    (admin_emits st c (conv_user1_id r) (conv_user2_id r)
       (ConversationCleared c uid count))
    (AdminSuccess (Some count))).
  { subst res. unfold clearConversation. rewrite Hc, Hu, Hf1, Hsel, Hf2. simpl.
    assert (Hauth : negb (strict_eq uid (conv_user1_id r))
                    && negb (strict_eq uid (conv_user2_id r)) = false).
    { unfold strict_eq. destruct Hpart as [-> | ->].
      - by rewrite bool_decide_eq_true_2.
      - rewrite (bool_decide_eq_true_2 (conv_user2_id r = conv_user2_id r)) by done.
        by rewrite andb_false_r. }
    by rewrite Hauth. }
  rewrite Hres. cbn [ar_conversations ar_ack ar_emits ar_messages].
  split_and!; [done | done | done | |].
  - unfold soft_delete_messages. clear. induction ms as [| m ms IH]; [constructor |].
    simpl. constructor; [| exact IH].
    by destruct (sql_eq (msg_conversation_id m) c).
  - by rewrite messages_of_soft_deleted, length_map.
Qed.

Lemma clearConversation_effect_witness :
  let res := clearConversation initial no_admin_faults 9 (VStr "c1") (VStr "u2")
               [c1_conversation] [hello_row] in
  ar_conversations res = [c1_conversation]
  ∧ ar_ack res = AdminSuccess (Some 1)
  ∧ head (ar_emits res)
    = Some (ToRoom (VStr "c1"), ConversationCleared (VStr "c1") (VStr "u2") 1)
  ∧ Forall2
      (fun m m' =>
         if sql_eq (msg_conversation_id m) (VStr "c1")
         then m' = set_deleted_at 9 m else m' = m)
      [hello_row] (ar_messages res)
  ∧ length (messages_of (VStr "c1") (ar_messages res)) = 1.
Proof.
  apply (clearConversation_effect initial no_admin_faults 9 (VStr "c1")
           (VStr "u2") c1_conversation [c1_conversation] [hello_row]);
    first [reflexivity | by right].
Defined.

(** X26.  [deleteConversation] is not atomic: when the update of the
    conversation succeeds and the update of its messages fails, the
    handler answers "Internal error" and emits nothing, the messages are
    as before, but the conversation stays soft-deleted. *)
Theorem deleteConversation_not_atomic st f now c u r convs ms :
  truthy c = true → u ≠ "" →
  convo_fault f = None → conversation_update_fault f = None →
  messages_update_fault f ≠ None →
  select_convo c convs = Row r →
  conv_user1_id r = VStr u ∨ conv_user2_id r = VStr u →
  let res := deleteConversation st f now c (VStr u) convs ms in
  ar_ack res = AdminError "Internal error"
  ∧ ar_emits res = []
  ∧ ar_messages res = ms
  ∧ ∃ r', select_convo c (ar_conversations res) = Row r'
          ∧ conv_id r' = conv_id r ∧ conv_deleted_at r' = Some now.
Proof.
  intros Hc Hu Hf1 Hf2 Hf3 Hsel Hpart res. subst res.
  rewrite (deleteConversation_by_participant st now c u r convs ms Hc Hu Hsel
             Hpart f Hf1 Hf2).
  destruct (messages_update_fault f); [| done]. simpl.
  split_and!; try done. by apply soft_delete_conversation_filter.
Qed.

Lemma deleteConversation_not_atomic_witness :
  let res := deleteConversation initial messages_fail 9 (VStr "c1") (VStr "u1")
               [c1_conversation] [hello_row] in
  ar_ack res = AdminError "Internal error"
  ∧ ar_emits res = []
  ∧ ar_messages res = [hello_row]
  ∧ ∃ r', select_convo (VStr "c1") (ar_conversations res) = Row r'
          ∧ conv_id r' = conv_id c1_conversation
          ∧ conv_deleted_at r' = Some 9%Z.
Proof.
  apply (deleteConversation_not_atomic initial messages_fail 9 (VStr "c1") "u1"
           c1_conversation [c1_conversation] [hello_row]);
    first [reflexivity | discriminate | by left].
Defined.

(** ** Properties of the origin check of the older server *)

Lemma prefix_spec (a b : string) :
  String.prefix a b = true ↔ ∃ post, b = a +:+ post.
Proof.
  revert b. induction a as [| c a IH]; intros b.
  - split; [intros _; exists b; reflexivity | intros _; by destruct b].
  - destruct b as [| d b]; simpl.
    { split; [done |]. intros [post H].
      change ("" = String c (a +:+ post)) in H. discriminate. }
    destruct (ascii_dec c d) as [-> | Hne].
    + rewrite IH. split; intros [post Hpost]; exists post.
      * change (String d b = String d (a +:+ post)). by rewrite Hpost.
      * change (String d b = String d (a +:+ post)) in Hpost. by injection Hpost.
    + split; [done |]. intros [post Hpost].
      change (String d b = String c (a +:+ post)) in Hpost. congruence.
Qed.

Lemma includes_spec (needle hay : string) :
  includes needle hay = true ↔ ∃ pre post, hay = pre +:+ needle +:+ post.
Proof.
  induction hay as [| d hay IH]; cbn [includes].
  - rewrite orb_false_r, prefix_spec. split.
    + intros [post ->]. by exists "", post.
    + intros (pre & post & H). destruct pre; [by exists post |].
      by change ("" = String a (pre +:+ needle +:+ post)) in H.
  - rewrite orb_true_iff, prefix_spec, IH. split.
    + intros [[post ->] | (pre & post & ->)].
      * by exists "", post.
      * by exists (String d pre), post.
    + intros (pre & post & H). destruct pre as [| e pre].
      * left. by exists post.
      * right. change (String d hay = String e (pre +:+ needle +:+ post)) in H.
        injection H as -> ->. by exists pre, post.
Qed.

Lemma string_app_assoc (a b c : string) : (a +:+ b) +:+ c = a +:+ (b +:+ c).
Proof.
  induction a as [| x a IH]; [done |].
  change (String x ((a +:+ b) +:+ c) = String x (a +:+ (b +:+ c))). by rewrite IH.
Qed.

(** [normalize] takes at most one slash off the end. *)
Lemma normalize_spec (url : string) :
  (∃ head, url = head +:+ "/" ∧ normalize url = head)
  ∨ (normalize url = url ∧ ∀ head, url ≠ head +:+ "/").
Proof.
  induction url as [| c r IH].
  - right. split; [done |]. intros [| ? ?]; done.
  - cbn [normalize]. destruct r as [| d r].
    + destruct (Ascii.eqb_spec c "/") as [-> | Hne].
      * left. by exists "".
      * right. split; [done |]. intros [| e [| ? ?]] H; try done.
        change (String c "" = String "/" "") in H. congruence.
    + destruct IH as [(head & Hr & Hn) | [Hn Hno]].
      * left. exists (String c head). rewrite Hn. split; [| done].
        change (String c (String d r) = String c (head +:+ "/")). by rewrite Hr.
      * right. rewrite Hn. split; [done |]. intros [| e head] H; [done |].
        change (String c (String d r) = String e (head +:+ "/")) in H.
        injection H as -> H. by apply (Hno head).
Qed.

Lemma normalize_app_slash (part : string) : normalize (part +:+ "/") = part.
Proof.
  induction part as [| c r IH]; [done |].
  change (normalize (String c (r +:+ "/")) = String c r). cbn [normalize].
  destruct (r +:+ "/") as [| d t] eqn:Hr; [by destruct r |].
  by rewrite IH.
Qed.

(** X27.  The origin check of the older server is a substring test
    against the first configured origin only: a request with an origin is
    let in exactly when the origin is empty or, one slash at its end
    aside, is a contiguous part of ["http://192.168.31.74:3000"].  So
    every fragment of that address passes, with or without a slash at the
    end, and the two app origins written after [||] do not. *)
Theorem cors_is_substring_test :
  (∀ o, cors_allows (Some o) = true
        ↔ o = "" ∨ ∃ pre post,
                     "http://192.168.31.74:3000" = pre +:+ normalize o +:+ post)
  ∧ (∀ pre part post,
       "http://192.168.31.74:3000" = pre +:+ part +:+ post →
       cors_allows (Some part) = true ∧ cors_allows (Some (part +:+ "/")) = true)
  ∧ cors_allows (Some "capacitor://localhost") = false
  ∧ cors_allows (Some "agropeer://localhost") = false
  ∧ cors_allows None = true.
Proof.
  assert (Hiff : ∀ o, cors_allows (Some o) = true
    ↔ o = "" ∨ ∃ pre post,
                 "http://192.168.31.74:3000" = pre +:+ normalize o +:+ post).
  { intros o. unfold cors_allows.
    destruct (String.eqb_spec o "") as [-> | Hne]; [by split; auto |].
    change allowedOrigins with "http://192.168.31.74:3000".
    rewrite includes_spec. split; [auto | by intros [? | ?]]. }
  split_and!; [exact Hiff | | done | done | done].
  intros pre part post Heq. split; apply Hiff.
  - destruct (normalize_spec part) as [(head & -> & ->) | [-> _]].
    + right. exists pre, ("/" +:+ post). by rewrite Heq, string_app_assoc.
    + right. by exists pre, post.
  - right. exists pre, post. by rewrite normalize_app_slash.
Qed.
